(** * String Analyzer API: a shallow embedding of the request handlers

    The repository holds two Express servers over an in-memory [Map]:
    [index.js] and a second, unnamed source file (called [part_000] here).
    Both are embedded below, each in a module of its own ([Index] and
    [Part000]), on top of a small model of the JavaScript runtime they use:
    strings, the regular-expression fragment of their patterns, [parseInt]
    and [Map].

    Conventions of the model:
    - a JavaScript string is the list of its code units; code units are the
      256 values of [ascii] (the Latin-1 range), so a code point is one code
      unit and [toLowerCase] works character by character;
    - a JavaScript number holding an integer is a [Z], with [NaN] apart;
      integers are exact (the source's doubles are, below 2^53);
    - [crypto]'s SHA-256 is not source of this repository: the handlers take
      the digest function as a parameter [sha256];
    - [new Date().toISOString()] is the parameter [now] of [POST /strings]. *)

From Stdlib Require Import Ascii String List NArith ZArith Lia Bool Permutation.
From Stdlib Require DecimalString DecimalN DecimalFacts.
Import ListNotations.
Open Scope string_scope.
Open Scope list_scope.

Set Implicit Arguments.

(* ================================================================== *)
(** ** JavaScript strings *)

Definition jsstring : Type := list ascii.

Definition lit (s : string) : jsstring := list_ascii_of_string s.
Coercion lit : string >-> jsstring.

Definition code (c : ascii) : N := N_of_ascii c.

Definition inRange (lo hi : N) (c : ascii) : bool :=
  ((lo <=? code c) && (code c <=? hi))%N.

(** [\s], and the white space of [trim] and [parseInt]: TAB, LF, VT, FF, CR,
    SPACE and NO-BREAK SPACE are the members below U+0100. *)
Definition isWhiteSpace (c : ascii) : bool :=
  inRange 9 13 c || (code c =? 32)%N || (code c =? 160)%N.

(** [\d] *)
Definition isDigit (c : ascii) : bool := inRange 48 57 c.

Definition isUpper (c : ascii) : bool := inRange 65 90 c.
Definition isLower (c : ascii) : bool := inRange 97 122 c.

(** [[a-zA-Z0-9]] *)
Definition isAlnum (c : ascii) : bool := isLower c || isUpper c || isDigit c.

(** [\w] is [[A-Za-z0-9_]] *)
Definition isWordChar (c : ascii) : bool := isAlnum c || (code c =? 95)%N.

(** [String.prototype.toLowerCase]: A-Z, and the Latin-1 capitals
    U+00C0..U+00DE except the multiplication sign U+00D7. *)
Definition lowerChar (c : ascii) : ascii :=
  if isUpper c || (inRange 192 222 c && negb (code c =? 215)%N)
  then ascii_of_N (code c + 32)
  else c.

Definition toLowerCase (s : jsstring) : jsstring := map lowerChar s.

(** [===] on strings *)
Fixpoint streqb (a b : jsstring) : bool :=
  match a, b with
  | [], [] => true
  | x :: a', y :: b' => Ascii.eqb x y && streqb a' b'
  | _, _ => false
  end.

Fixpoint dropWhile (p : ascii -> bool) (s : jsstring) : jsstring :=
  match s with
  | [] => []
  | c :: s' => if p c then dropWhile p s' else s
  end.

Fixpoint takeWhile (p : ascii -> bool) (s : jsstring) : jsstring :=
  match s with
  | [] => []
  | c :: s' => if p c then c :: takeWhile p s' else []
  end.

(** [String.prototype.trim] *)
Definition trim (s : jsstring) : jsstring :=
  rev (dropWhile isWhiteSpace (rev (dropWhile isWhiteSpace s))).

Fixpoint startsWith (s sub : jsstring) {struct sub} : bool :=
  match sub, s with
  | [], _ => true
  | x :: sub', y :: s' => Ascii.eqb x y && startsWith s' sub'
  | _ :: _, [] => false
  end.

(** [String.prototype.indexOf]; [None] is the source's -1. *)
Fixpoint indexOf (s sub : jsstring) : option nat :=
  if startsWith s sub then Some 0
  else match s with
       | [] => None
       | _ :: s' => option_map S (indexOf s' sub)
       end.

(** [String.prototype.includes] *)
Definition includes (s sub : jsstring) : bool :=
  match indexOf s sub with Some _ => true | None => false end.

(** [Array.prototype.join("")] *)
Definition join (parts : list jsstring) : jsstring := concat parts.

(** [filter(Boolean)] on an array of strings: the empty string is falsy. *)
Definition truthy (s : jsstring) : bool :=
  match s with [] => false | _ :: _ => true end.

(* ================================================================== *)
(** ** JavaScript numbers *)

Inductive number : Type :=
| NaN
| Num (z : Z).

Definition isNaN (n : number) : bool :=
  match n with NaN => true | Num _ => false end.

(** [a >= b], [a <= b] and [a === b] for a count [a]; every comparison with
    [NaN] is false. *)
Definition geNum (a : nat) (b : number) : bool :=
  match b with NaN => false | Num z => (z <=? Z.of_nat a)%Z end.

Definition leNum (a : nat) (b : number) : bool :=
  match b with NaN => false | Num z => (Z.of_nat a <=? z)%Z end.

Definition eqNum (a : nat) (b : number) : bool :=
  match b with NaN => false | Num z => (Z.of_nat a =? z)%Z end.

Definition addNum (a : number) (z : Z) : number :=
  match a with NaN => NaN | Num x => Num (x + z) end.

Definition digitValue (c : ascii) : N :=
  if isDigit c then code c - 48
  else if isLower c then code c - 87
  else if isUpper c then code c - 55
  else 36.

Definition isRadixDigit (radix : N) (c : ascii) : bool :=
  (digitValue c <? radix)%N.

(** The mathematical value of a numeral, most significant digit first. *)
Definition numeralValue (radix : N) (ds : jsstring) : N :=
  fold_left (fun acc c => (acc * radix + digitValue c)%N) ds 0%N.

Definition splitSign (s : jsstring) : Z * jsstring :=
  match s with
  | c :: s' =>
      if (code c =? 45)%N then ((-1)%Z, s')
      else if (code c =? 43)%N then (1%Z, s')
      else (1%Z, s)
  | [] => (1%Z, s)
  end.

Definition parseDigits (sign : Z) (radix : N) (s : jsstring) : number :=
  match takeWhile (isRadixDigit radix) s with
  | [] => NaN
  | ds => Num (sign * Z.of_N (numeralValue radix ds))
  end.

(** [parseInt(s, 10)]: leading white space, an optional sign, then the
    longest prefix of decimal digits; [NaN] when that prefix is empty. *)
Definition parseInt10 (s : jsstring) : number :=
  let (sign, t) := splitSign (dropWhile isWhiteSpace s) in
  parseDigits sign 10 t.

(** [parseInt(s)] with no radix: as above, but a [0x] or [0X] prefix
    selects radix 16. *)
Definition parseInt (s : jsstring) : number :=
  let (sign, t) := splitSign (dropWhile isWhiteSpace s) in
  match t with
  | z :: x :: t' =>
      if (code z =? 48)%N && ((code x =? 120)%N || (code x =? 88)%N)
      then parseDigits sign 16 t'
      else parseDigits sign 10 t
  | _ => parseDigits sign 10 t
  end.


(* ================================================================== *)
(** ** Regular expressions

    The fragment the two servers' patterns are written in, run by a
    backtracking matcher with the priorities of the language: alternatives
    left to right, [?] and [+] greedy.  [+] is applied to character classes
    only, as in the source. *)

Inductive regex : Type :=
| Lit (s : jsstring)            (* a run of literal characters *)
| Class (p : ascii -> bool)     (* one character of a class *)
| Seq (r1 r2 : regex)
| Alt (r1 r2 : regex)           (* r1|r2 *)
| Opt (r : regex)               (* r? *)
| Plus (p : ascii -> bool)      (* [class]+ *)
| WordBoundary                  (* \b *)
| Group (r : regex).            (* ( r ), the first capture group *)

(** A cursor in the subject: the text to its left (nearest character first),
    the text to its right, and what group 1 captured so far. *)
Record cursor : Type := Cursor {
  before : jsstring;
  rest : jsstring;
  capture : option jsstring
}.

(** The text between an earlier cursor and a later one. *)
Definition consumed (from to : cursor) : jsstring :=
  rev (firstn (length (before to) - length (before from)) (before to)).

Definition wordBefore (c : cursor) : bool :=
  match before c with x :: _ => isWordChar x | [] => false end.

Definition wordAfter (c : cursor) : bool :=
  match rest c with x :: _ => isWordChar x | [] => false end.

Definition atBoundary (c : cursor) : bool := xorb (wordBefore c) (wordAfter c).

Fixpoint matchLit (l bef rst : jsstring) : option (jsstring * jsstring) :=
  match l with
  | [] => Some (bef, rst)
  | x :: l' =>
      match rst with
      | y :: rst' => if Ascii.eqb x y then matchLit l' (y :: bef) rst' else None
      | [] => None
      end
  end.

Section Matcher.
Variable A : Type.

(** Zero or more characters of [p], the longest run first. *)
Fixpoint star (p : ascii -> bool) (bef rst : jsstring) (cap : option jsstring)
         (k : cursor -> option A) : option A :=
  match rst with
  | x :: rst' =>
      if p x then
        match star p (x :: bef) rst' cap k with
        | Some a => Some a
        | None => k (Cursor bef rst cap)
        end
      else k (Cursor bef rst cap)
  | [] => k (Cursor bef rst cap)
  end.

Fixpoint run (r : regex) (c : cursor) (k : cursor -> option A) : option A :=
  match r with
  | Lit l =>
      match matchLit l (before c) (rest c) with
      | Some (bef, rst) => k (Cursor bef rst (capture c))
      | None => None
      end
  | Class p =>
      match rest c with
      | x :: rst => if p x then k (Cursor (x :: before c) rst (capture c)) else None
      | [] => None
      end
  | Seq r1 r2 => run r1 c (fun c' => run r2 c' k)
  | Alt r1 r2 =>
      match run r1 c k with
      | Some a => Some a
      | None => run r2 c k
      end
  | Opt r1 =>
      match run r1 c k with
      | Some a => Some a
      | None => k c
      end
  | Plus p =>
      match rest c with
      | x :: rst => if p x then star p (x :: before c) rst (capture c) k else None
      | [] => None
      end
  | WordBoundary => if atBoundary c then k c else None
  | Group r1 =>
      run r1 c (fun c' => k (Cursor (before c') (rest c') (Some (consumed c c'))))
  end.
End Matcher.

(** The match array of [RegExp.prototype.exec]: [index], element 0 and
    element 1. *)
Record matchResult : Type := MatchResult {
  index : nat;
  matched : jsstring;
  group1 : option jsstring
}.

(** A match starting exactly at the cursor. *)
Definition matchAt (r : regex) (bef rst : jsstring) : option cursor :=
  run r (Cursor bef rst None) (fun c => Some c).

(** The leftmost match at or after the cursor. *)
Fixpoint searchFrom (r : regex) (bef rst : jsstring) : option matchResult :=
  match matchAt r bef rst with
  | Some c => Some (MatchResult (length bef) (consumed (Cursor bef rst None) c) (capture c))
  | None =>
      match rst with
      | [] => None
      | x :: rst' => searchFrom r (x :: bef) rst'
      end
  end.

(** [re.exec(s)] and [s.match(re)] for a pattern without the [g] flag;
    [None] is the source's [null]. *)
Definition exec (r : regex) (s : jsstring) : option matchResult := searchFrom r [] s.

(** [re.test(s)] *)
Definition test (r : regex) (s : jsstring) : bool :=
  match exec r s with Some _ => true | None => false end.

(** [s.replace(re, repl)] for a pattern with the [g] flag and a replacement
    without [$]: every match, left to right, gives way to [repl].  [skip]
    counts the characters of the current match still to pass over. *)
Fixpoint replaceFrom (r : regex) (repl bef rst : jsstring) (skip : nat) : jsstring :=
  match rst with
  | [] =>
      match skip, matchAt r bef [] with
      | O, Some _ => repl
      | _, _ => []
      end
  | x :: rst' =>
      match skip with
      | S n => replaceFrom r repl (x :: bef) rst' n
      | O =>
          match matchAt r bef rst with
          | Some c =>
              match length (before c) - length bef with
              | O => repl ++ x :: replaceFrom r repl (x :: bef) rst' 0
              | S n => repl ++ replaceFrom r repl (x :: bef) rst' n
              end
          | None => x :: replaceFrom r repl (x :: bef) rst' 0
          end
      end
  end.

Definition replaceAll (r : regex) (repl s : jsstring) : jsstring :=
  replaceFrom r repl [] s 0.

(** [s.split(re)] for a pattern without capture groups: the pieces between
    the matches.  [piece] is the current piece, last character first; a
    match is taken only where it ends after the start of the piece. *)
Fixpoint splitFrom (r : regex) (bef rst piece : jsstring) (skip : nat) : list jsstring :=
  match rst with
  | [] => [rev piece]
  | x :: rst' =>
      match skip with
      | S n => splitFrom r (x :: bef) rst' piece n
      | O =>
          match matchAt r bef rst with
          | Some c =>
              match length (before c) - length bef, piece with
              | O, [] => splitFrom r (x :: bef) rst' [x] 0
              | O, _ :: _ => rev piece :: splitFrom r (x :: bef) rst' [x] 0
              | S n, _ => rev piece :: splitFrom r (x :: bef) rst' [] n
              end
          | None => splitFrom r (x :: bef) rst' (x :: piece) 0
          end
      end
  end.

Definition split (r : regex) (s : jsstring) : list jsstring :=
  match s with
  | [] => match matchAt r [] [] with Some _ => [] | None => [[]] end
  | _ :: _ => splitFrom r [] s [] 0
  end.

(** [s.split()] with no separator: the whole string as the only element. *)
Definition splitNoSeparator (s : jsstring) : list jsstring := [s].

(* ================================================================== *)
(** ** [Map]

    A [Map] keeps its entries in insertion order and holds a key once:
    [set] on a key already there replaces the value in place, [delete]
    leaves no entry for the key. *)

Module JsMap.
Section Ops.
Variable V : Type.

Definition t : Type := list (jsstring * V).

Definition empty : t := [].

Fixpoint get (k : jsstring) (m : t) : option V :=
  match m with
  | [] => None
  | (k', v) :: m' => if streqb k k' then Some v else get k m'
  end.

Definition has (k : jsstring) (m : t) : bool :=
  match get k m with Some _ => true | None => false end.

Fixpoint set (k : jsstring) (v : V) (m : t) : t :=
  match m with
  | [] => [(k, v)]
  | (k', v') :: m' =>
      if streqb k k' then (k', v) :: m' else (k', v') :: set k v m'
  end.

Definition delete (k : jsstring) (m : t) : t :=
  filter (fun kv => negb (streqb k (fst kv))) m.

Definition keys (m : t) : list jsstring := map fst m.

(** [Array.from(m.values())] *)
Definition values (m : t) : list V := map snd m.
End Ops.
End JsMap.

(* ================================================================== *)
(** ** The records of the API *)

(** The object [analyzeString] returns.  [part_000] names the digest field
    [sha_256_hash]. *)
Module Props.
Record t : Type := Make {
  length : nat;
  is_palindrome : bool;
  unique_characters : nat;
  word_count : nat;
  sha256_hash : jsstring;
  character_frequency_map : list (ascii * nat)
}.
End Props.

Record entry : Type := Entry {
  id : jsstring;
  value : jsstring;
  properties : Props.t;
  created_at : jsstring
}.

Definition Store : Type := JsMap.t entry.

(** The objects [filtersApplied], [parsed] and [filters]: a key that was
    never assigned is [None]. *)
Module Filters.
Record t : Type := Make {
  is_palindrome : option bool;
  min_length : option number;
  max_length : option number;
  word_count : option number;
  contains_character : option jsstring
}.

Definition empty : t := Make None None None None None.

Definition set_is_palindrome (b : bool) (f : t) : t :=
  Make (Some b) (min_length f) (max_length f) (word_count f) (contains_character f).
Definition set_min_length (n : number) (f : t) : t :=
  Make (is_palindrome f) (Some n) (max_length f) (word_count f) (contains_character f).
Definition set_max_length (n : number) (f : t) : t :=
  Make (is_palindrome f) (min_length f) (Some n) (word_count f) (contains_character f).
Definition set_word_count (n : number) (f : t) : t :=
  Make (is_palindrome f) (min_length f) (max_length f) (Some n) (contains_character f).
Definition set_contains_character (s : jsstring) (f : t) : t :=
  Make (is_palindrome f) (min_length f) (max_length f) (word_count f) (Some s).

(** [Object.keys(f).length === 0] *)
Definition isEmpty (f : t) : bool :=
  match is_palindrome f, min_length f, max_length f, word_count f, contains_character f with
  | None, None, None, None, None => true
  | _, _, _, _, _ => false
  end.
End Filters.

(** [req.query] of [GET /strings]: the raw text of each parameter given. *)
Module Query.
Record t : Type := Make {
  is_palindrome : option jsstring;
  min_length : option jsstring;
  max_length : option jsstring;
  word_count : option jsstring;
  contains_character : option jsstring
}.

Definition empty : t := Make None None None None None.
End Query.

(** A JSON value met where a string is expected. *)
Inductive jsvalue : Type :=
| VString (s : jsstring)
| VOther.

(** [req.body] of [POST /strings]: absent, or an object with or without an
    own property [value]. *)
Inductive body : Type :=
| NoBody
| Body (value : option jsvalue).

Inductive response : Type :=
| Created (e : entry)                                        (* 201 *)
| Found (e : entry)                                          (* 200 *)
| OkList (data : list entry) (count : nat) (filters_applied : Filters.t)
| OkQuery (data : list entry) (count : nat)
          (original : jsstring) (parsed_filters : Filters.t)
| NoContent                                                  (* 204 *)
| Error (status : nat) (error : string)
| Throws.                                                    (* uncaught TypeError *)

Definition statusOf (r : response) : nat :=
  match r with
  | Created _ => 201
  | Found _ | OkList _ _ _ | OkQuery _ _ _ _ => 200
  | NoContent => 204
  | Error s _ => s
  | Throws => 500
  end.

Inductive request : Type :=
| PostStrings (b : body) (now : jsstring)
| GetString (raw : jsstring)
| GetStrings (q : Query.t)
| GetNaturalLanguage (query : option jsstring)
| DeleteString (raw : jsstring).

(** [for (const ch of s) map[ch] = (map[ch] || 0) + 1] on one key. *)
Fixpoint bump (ch : ascii) (m : list (ascii * nat)) : list (ascii * nat) :=
  match m with
  | [] => [(ch, 1)]
  | (c, n) :: m' => if Ascii.eqb c ch then (c, n + 1) :: m' else (c, n) :: bump ch m'
  end.

Definition charFreqMap (s : jsstring) : list (ascii * nat) :=
  fold_left (fun m ch => bump ch m) s [].

(** [new Set(s).size] *)
Definition uniqueCharacters (s : jsstring) : nat := length (nodup ascii_dec s).

(** [s.split("")] *)
Definition splitChars (s : jsstring) : list jsstring := map (fun c => [c]) s.

(** The filters both servers chain with [results.filter(...)]. *)
Definition byPalindrome (b : bool) (r : entry) : bool :=
  Bool.eqb (Props.is_palindrome (properties r)) b.
Definition byMinLength (n : number) (r : entry) : bool :=
  geNum (Props.length (properties r)) n.
Definition byMaxLength (n : number) (r : entry) : bool :=
  leNum (Props.length (properties r)) n.
Definition byWordCount (n : number) (r : entry) : bool :=
  eqNum (Props.word_count (properties r)) n.
Definition byContains (ch : jsstring) (r : entry) : bool :=
  includes (value r) ch.

(** [if (f !== undefined) results = results.filter(p f)] *)
Definition filterIf (A : Type) (f : option A) (p : A -> entry -> bool)
           (results : list entry) : list entry :=
  match f with
  | Some a => filter (p a) results
  | None => results
  end.

(** Handlers that may answer early: either the early response, or the state
    the following statements go on with. *)
Definition early (A : Type) : Type := (response + A)%type.

Definition andThen (A B : Type) (x : early A) (f : A -> early B) : early B :=
  match x with
  | inl r => inl r
  | inr a => f a
  end.

Notation "x >>= f" := (andThen x f) (at level 50, left associativity).

(* ================================================================== *)
(** ** index.js *)

Module Index.

(** [countWords] *)
Definition countWords (s : jsstring) : nat :=
  match s with
  | [] => 0
  | _ :: _ => length (filter truthy (split (Plus isWhiteSpace) (trim s)))
  end.

(** [isPalindrome] *)
Definition isPalindrome (s : jsstring) : bool :=
  let normalized := replaceAll (Plus isWhiteSpace) [] (toLowerCase s) in
  streqb normalized (join (rev (splitChars normalized))).

(** [/\b(single word|single-word|one word)\b/] *)
Definition reSingleWord : regex :=
  Seq WordBoundary
    (Seq (Group (Alt (Lit "single word") (Alt (Lit "single-word") (Lit "one word"))))
         WordBoundary).

(** [/\bpalindromic\b|\bpalindrome\b/] *)
Definition rePalindrome : regex :=
  Alt (Seq WordBoundary (Seq (Lit "palindromic") WordBoundary))
      (Seq WordBoundary (Seq (Lit "palindrome") WordBoundary)).

(** [/longer than (\d+)/] *)
Definition reLongerThan : regex :=
  Seq (Lit "longer than ") (Group (Plus isDigit)).

(** [/\bat least (\d+)\b/] *)
Definition reAtLeast : regex :=
  Seq WordBoundary (Seq (Lit "at least ") (Seq (Group (Plus isDigit)) WordBoundary)).

(** [/\bfirst vowel\b/] *)
Definition reFirstVowel : regex :=
  Seq WordBoundary (Seq (Lit "first vowel") WordBoundary).

(** [/containing (?:the letter )?([a-zA-Z0-9])/] *)
Definition reContaining : regex :=
  Seq (Lit "containing ") (Seq (Opt (Lit "the letter ")) (Group (Class isAlnum))).

(** Element 1 of a match array; a group that took no part is [undefined],
    which [parseInt] reads as the text "undefined". *)
Definition groupText (m : matchResult) : jsstring :=
  match group1 m with
  | Some g => g
  | None => lit "undefined"
  end.

(** [num + 1] (or [num]) stored in [parsed.min_length] unless [num] is NaN *)
Definition setMinLengthFrom (m : option matchResult) (delta : Z) (parsed : Filters.t)
  : Filters.t :=
  match m with
  | Some mr =>
      let num := parseInt10 (groupText mr) in
      if negb (isNaN num) then Filters.set_min_length (addNum num delta) parsed
      else parsed
  | None => parsed
  end.

(** Lines 173-211 of the natural-language handler: the object [parsed]. *)
Definition parseQuery (original : jsstring) : Filters.t :=
  let low := toLowerCase original in
  let parsed := Filters.empty in
  let parsed :=
    if test reSingleWord low then Filters.set_word_count (Num 1) parsed else parsed in
  let parsed :=
    if test rePalindrome low then Filters.set_is_palindrome true parsed else parsed in
  let parsed := setMinLengthFrom (exec reLongerThan low) 1 parsed in
  let parsed := setMinLengthFrom (exec reAtLeast low) 0 parsed in
  let parsed :=
    if test reFirstVowel low then Filters.set_contains_character (lit "a") parsed
    else parsed in
  let parsed :=
    match exec reContaining low with
    | Some mr => Filters.set_contains_character (groupText mr) parsed
    | None => parsed
    end in
  parsed.

(** The interpreter of the handler: [None] is the answer
    "Unable to parse natural language query". *)
Definition interpret (original : jsstring) : option Filters.t :=
  let parsed := parseQuery original in
  if Filters.isEmpty parsed then None else Some parsed.

(** Lines 219-223: the parsed filters applied to the records. *)
Definition applyParsed (parsed : Filters.t) (results : list entry) : list entry :=
  let results := filterIf (Filters.is_palindrome parsed) byPalindrome results in
  let results := filterIf (Filters.word_count parsed) byWordCount results in
  let results := filterIf (Filters.min_length parsed) byMinLength results in
  let results := filterIf (Filters.contains_character parsed) byContains results in
  results.

(** [GET /strings/filter-by-natural-language] *)
Definition filterByNaturalLanguage (store : Store) (q : option jsstring) : response :=
  match q with
  | None | Some [] => Error 400 "Missing query parameter"
  | Some original =>
      match interpret original with
      | None => Error 400 "Unable to parse natural language query"
      | Some parsed =>
          let results := applyParsed parsed (JsMap.values store) in
          OkQuery results (length results) original parsed
      end
  end.

Definition listState : Type := (list entry * Filters.t)%type.

Definition palindromeParam (raw : option jsstring) (st : listState) : early listState :=
  match raw with
  | None => inr st
  | Some s =>
      let val := toLowerCase s in
      if streqb val "true" || streqb val "false" then
        let boolVal := streqb val "true" in
        inr (filter (byPalindrome boolVal) (fst st),
             Filters.set_is_palindrome boolVal (snd st))
      else inl (Error 400 "is_palindrome must be true or false")
  end.

Definition intParam (raw : option jsstring) (msg : string)
           (record : number -> Filters.t -> Filters.t)
           (keep : number -> entry -> bool) (st : listState) : early listState :=
  match raw with
  | None => inr st
  | Some s =>
      let n := parseInt10 s in
      if isNaN n then inl (Error 400 msg)
      else inr (filter (keep n) (fst st), record n (snd st))
  end.

Definition containsParam (raw : option jsstring) (st : listState) : early listState :=
  match raw with
  | None => inr st
  | Some ch =>
      match ch with
      | [] => inl (Error 400 "contains_character must be a string")
      | _ :: _ => inr (filter (byContains ch) (fst st),
                       Filters.set_contains_character ch (snd st))
      end
  end.

Definition listPipeline (store : Store) (q : Query.t) : early listState :=
  inr (JsMap.values store, Filters.empty)
  >>= palindromeParam (Query.is_palindrome q)
  >>= intParam (Query.min_length q) "min_length must be an integer"
        Filters.set_min_length byMinLength
  >>= intParam (Query.max_length q) "max_length must be an integer"
        Filters.set_max_length byMaxLength
  >>= intParam (Query.word_count q) "word_count must be an integer"
        Filters.set_word_count byWordCount
  >>= containsParam (Query.contains_character q).

(** [GET /strings] *)
Definition getStrings (store : Store) (q : Query.t) : response :=
  match listPipeline store q with
  | inl r => r
  | inr (results, filtersApplied) => OkList results (length results) filtersApplied
  end.

Section WithDigest.
Variable sha256 : jsstring -> jsstring.

(** [analyzeString] *)
Definition analyzeString (value : jsstring) : Props.t :=
  Props.Make (length value) (isPalindrome value) (uniqueCharacters value)
             (countWords value) (sha256 value) (charFreqMap value).

(** [POST /strings] *)
Definition postStrings (store : Store) (b : body) (now : jsstring)
  : response * Store :=
  match b with
  | NoBody | Body None =>
      (Error 400 "Missing 'value' field in request body", store)
  | Body (Some VOther) => (Error 422 "'value' must be a string", store)
  | Body (Some (VString value)) =>
      let hash := sha256 value in
      if JsMap.has hash store
      then (Error 409 "String already exists in the system", store)
      else
        let entry := Entry hash value (analyzeString value) now in
        (Created entry, JsMap.set hash entry store)
  end.

(** [GET /strings/:string_value] *)
Definition getString (store : Store) (raw : jsstring) : response :=
  match JsMap.get (sha256 raw) store with
  | None => Error 404 "String not found"
  | Some entry => Found entry
  end.

(** [DELETE /strings/:string_value] *)
Definition deleteString (store : Store) (raw : jsstring) : response * Store :=
  let hash := sha256 raw in
  if negb (JsMap.has hash store) then (Error 404 "String not found", store)
  else (NoContent, JsMap.delete hash store).

(** One request served: the response and the store afterwards. *)
Definition handle (store : Store) (req : request) : response * Store :=
  match req with
  | PostStrings b now => postStrings store b now
  | GetString raw => (getString store raw, store)
  | GetStrings q => (getStrings store q, store)
  | GetNaturalLanguage q => (filterByNaturalLanguage store q, store)
  | DeleteString raw => deleteString store raw
  end.
End WithDigest.

End Index.

(* ================================================================== *)
(** ** The second server (part_000) *)

Module Part000.

(** [/\+s/]: an escaped plus sign, then the letter s. *)
Definition rePlusS : regex := Lit "+s".

(** [/longer than (\d+)/] *)
Definition reLongerThan : regex :=
  Seq (Lit "longer than ") (Group (Plus isDigit)).

(** [/letter (\w)/] *)
Definition reLetter : regex :=
  Seq (Lit "letter ") (Group (Class isWordChar)).

Definition groupText (m : matchResult) : jsstring :=
  match group1 m with
  | Some g => g
  | None => lit "undefined"
  end.

(** The [normalized] and [is_palindrome] lines of [analyzeString]. *)
Definition isPalindrome (str : jsstring) : bool :=
  let normalized := replaceAll rePlusS [] (toLowerCase str) in
  streqb normalized (join (rev (splitNoSeparator normalized))).

(** The [words] and [word_count] lines of [analyzeString]. *)
Definition wordCount (str : jsstring) : nat :=
  let words := filter truthy (split rePlusS (trim str)) in
  length words.

(** Lines 114-126 of the natural-language handler: the object [filters]. *)
Definition parseQuery (query : jsstring) : Filters.t :=
  let q := toLowerCase query in
  let filters := Filters.empty in
  let filters :=
    if includes q "palindromic" then Filters.set_is_palindrome true filters
    else filters in
  let filters :=
    if includes q "single word" then Filters.set_word_count (Num 1) filters
    else filters in
  let filters :=
    if includes q "longer than" then
      match exec reLongerThan q with
      | Some m => Filters.set_min_length (addNum (parseInt (groupText m)) 1) filters
      | None => filters
      end
    else filters in
  let filters :=
    if includes q "containing the letter" then
      match exec reLetter q with
      | Some m => Filters.set_contains_character (groupText m) filters
      | None => filters
      end
    else filters in
  filters.

Definition interpret (query : jsstring) : option Filters.t :=
  let filters := parseQuery query in
  if Filters.isEmpty filters then None else Some filters.

(** Lines 132-140; the palindrome filter keeps [r.properties.is_palindrome]
    itself. *)
Definition applyParsed (filters : Filters.t) (results : list entry) : list entry :=
  let results :=
    filterIf (Filters.is_palindrome filters)
             (fun _ r => Props.is_palindrome (properties r)) results in
  let results := filterIf (Filters.word_count filters) byWordCount results in
  let results := filterIf (Filters.min_length filters) byMinLength results in
  let results := filterIf (Filters.contains_character filters) byContains results in
  results.

(** [GET /strings/filter-by-natural-language] *)
Definition filterByNaturalLanguage (strDB : Store) (query : option jsstring) : response :=
  match query with
  | None | Some [] => Error 400 "Missing query"
  | Some text =>
      match interpret text with
      | None => Error 400 "Unable to parse query"
      | Some filters =>
          let results := applyParsed filters (JsMap.values strDB) in
          OkQuery results (length results) text filters
      end
  end.

(** The [filters] object of [GET /strings]: no parameter is rejected. *)
Definition listFilters (q : Query.t) : Filters.t :=
  Filters.Make
    (option_map (fun s => streqb s "true") (Query.is_palindrome q))
    (option_map parseInt (Query.min_length q))
    (option_map parseInt (Query.max_length q))
    (option_map parseInt (Query.word_count q))
    (Query.contains_character q).

(** [GET /strings] *)
Definition getStrings (strDB : Store) (q : Query.t) : response :=
  let filters := listFilters q in
  let results := JsMap.values strDB in
  let results := filterIf (Filters.is_palindrome filters) byPalindrome results in
  let results := filterIf (Filters.min_length filters) byMinLength results in
  let results := filterIf (Filters.max_length filters) byMaxLength results in
  let results := filterIf (Filters.word_count filters) byWordCount results in
  let results := filterIf (Filters.contains_character filters) byContains results in
  OkList results (length results) filters.

Section WithDigest.
Variable sha256 : jsstring -> jsstring.

(** [analyzeString] *)
Definition analyzeString (str : jsstring) : Props.t :=
  Props.Make (length str) (isPalindrome str) (uniqueCharacters str)
             (wordCount str) (sha256 str) (charFreqMap str).

(** [POST /strings]; destructuring an absent body throws. *)
Definition postStrings (strDB : Store) (b : body) (now : jsstring)
  : response * Store :=
  match b with
  | NoBody => (Throws, strDB)
  | Body None => (Error 400 "value is missing", strDB)
  | Body (Some VOther) => (Error 422 "value must be a string", strDB)
  | Body (Some (VString value)) =>
      let properties := analyzeString value in
      let id := Props.sha256_hash properties in
      if JsMap.has id strDB then (Error 409 "String already exists", strDB)
      else
        let record := Entry id value properties now in
        (Created record, JsMap.set id record strDB)
  end.

(** [GET /strings/:value] *)
Definition getString (strDB : Store) (value : jsstring) : response :=
  let hash := sha256 value in
  if negb (JsMap.has hash strDB) then Error 404 "String not found"
  else match JsMap.get hash strDB with
       | Some record => Found record
       | None => Throws
       end.

(** [DELETE /strings/:value] *)
Definition deleteString (strDB : Store) (value : jsstring) : response * Store :=
  let hash := sha256 value in
  if negb (JsMap.has hash strDB) then (Error 404 "String not found", strDB)
  else (NoContent, JsMap.delete hash strDB).

Definition handle (strDB : Store) (req : request) : response * Store :=
  match req with
  | PostStrings b now => postStrings strDB b now
  | GetString raw => (getString strDB raw, strDB)
  | GetStrings q => (getStrings strDB q, strDB)
  | GetNaturalLanguage q => (filterByNaturalLanguage strDB q, strDB)
  | DeleteString raw => deleteString strDB raw
  end.
End WithDigest.

End Part000.

Unset Implicit Arguments.

(* ================================================================== *)
(** ** The properties, as the specification words them *)

(** Palindrome normal form: lower-cased, white space removed, every other
    character kept. *)
Definition normalForm (s : jsstring) : jsstring :=
  filter (fun c => negb (isWhiteSpace c)) (toLowerCase s).

(** The white-space-delimited non-empty tokens of a string; [piece] is the
    token being read, last character first. *)
Fixpoint tokensFrom (s piece : jsstring) : list jsstring :=
  match s with
  | [] => match piece with [] => [] | _ :: _ => [rev piece] end
  | c :: s' =>
      if isWhiteSpace c then
        match piece with
        | [] => tokensFrom s' []
        | _ :: _ => rev piece :: tokensFrom s' []
        end
      else tokensFrom s' (c :: piece)
  end.

Definition tokens (s : jsstring) : list jsstring := tokensFrom s [].

(** One predicate per field present in a filter object. *)
Definition predicates (f : Filters.t) : list (entry -> bool) :=
  match Filters.is_palindrome f with Some b => [byPalindrome b] | None => [] end ++
  match Filters.min_length f with Some n => [byMinLength n] | None => [] end ++
  match Filters.max_length f with Some n => [byMaxLength n] | None => [] end ++
  match Filters.word_count f with Some n => [byWordCount n] | None => [] end ++
  match Filters.contains_character f with Some ch => [byContains ch] | None => [] end.

(** The conjunction of the predicates of the fields present. *)
Definition satisfies (f : Filters.t) (r : entry) : bool :=
  forallb (fun p => p r) (predicates f).

(** Predicates applied one after the other, in the order of the list. *)
Definition filterEach (ps : list (entry -> bool)) (records : list entry) : list entry :=
  fold_left (fun rs p => filter p rs) ps records.

(** [sub] occurs in [s] as a contiguous run of characters. *)
Definition substringOf (sub s : jsstring) : Prop :=
  exists pre post : jsstring, s = pre ++ sub ++ post.

(** What stands next to a phrase: the character before it, the character
    after it. *)
Definition endsInWordChar (pre : jsstring) : bool :=
  match rev pre with c :: _ => isWordChar c | [] => false end.

Definition startsWithWordChar (post : jsstring) : bool :=
  match post with c :: _ => isWordChar c | [] => false end.


(** A digest without collisions, to run the handlers on examples. *)
Definition plainDigest (s : jsstring) : jsstring := s.

(** The filters a [GET /strings] of index.js echoes for a query it accepts. *)
Definition typedFilters (q : Query.t) : Filters.t :=
  Filters.Make
    (option_map (fun s => streqb (toLowerCase s) "true") (Query.is_palindrome q))
    (option_map parseInt10 (Query.min_length q))
    (option_map parseInt10 (Query.max_length q))
    (option_map parseInt10 (Query.word_count q))
    (Query.contains_character q).

(** Strings posted one after the other, each with its time stamp, to a
    server's [POST /strings]; the store at the end. *)
Definition insertAll (post : Store -> body -> jsstring -> response * Store)
           (posts : list (jsstring * jsstring)) (store : Store) : Store :=
  fold_left (fun st vn => snd (post st (Body (Some (VString (fst vn)))) (snd vn)))
            posts store.

(** The queries [GET /strings] of index.js answers with 200: every parameter
    given passes its check. *)
Definition accepted (q : Query.t) : bool :=
  match Query.is_palindrome q with
  | Some s => streqb (toLowerCase s) "true" || streqb (toLowerCase s) "false"
  | None => true
  end &&
  match Query.min_length q with Some s => negb (isNaN (parseInt10 s)) | None => true end &&
  match Query.max_length q with Some s => negb (isNaN (parseInt10 s)) | None => true end &&
  match Query.word_count q with Some s => negb (isNaN (parseInt10 s)) | None => true end &&
  match Query.contains_character q with Some ch => truthy ch | None => true end.

(** The record a successful [POST /strings] of index.js, and of part_000,
    creates. *)
Definition indexEntry (sha256 : jsstring -> jsstring) (s now : jsstring) : entry :=
  Entry (sha256 s) s (Index.analyzeString sha256 s) now.

Definition part000Entry (sha256 : jsstring -> jsstring) (s now : jsstring) : entry :=
  Entry (sha256 s) s (Part000.analyzeString sha256 s) now.

(** The data of the examples. *)
Definition exampleTime : jsstring := lit "2025-10-18T14:25:00.000Z".

Definition madamEntry : entry := indexEntry plainDigest (lit "madam") exampleTime.

Definition madamStore : Store := [(lit "madam", madamEntry)].

Definition madamAgain : request :=
  PostStrings (Body (Some (VString (lit "madam")))) (lit "2025-10-19T08:00:00.000Z").

Definition scenarioPosts (t1 t2 t3 : jsstring) : list (jsstring * jsstring) :=
  [(lit "aa", t1); (lit "aaa", t2); (lit "ab", t3)].

Definition scenarioQuery : Query.t :=
  Query.Make None (Some (lit "2")) None None (Some (lit "a")).

Definition scenarioEcho : Filters.t :=
  Filters.Make None (Some (Num 2)) None None (Some (lit "a")).

Definition scenarioStore : Store :=
  insertAll (Index.postStrings plainDigest)
            (scenarioPosts (lit "t1") (lit "t2") (lit "t3")) (JsMap.empty entry).

Definition nlText : jsstring := lit "all single word palindromic strings".

Definition nlFilters : Filters.t := Filters.Make (Some true) None None (Some (Num 1)) None.

Definition nlQuery : Query.t :=
  Query.Make (Some (lit "true")) None None (Some (lit "1")) None.

Definition containsOnly (ch : jsstring) : Query.t :=
  Query.Make None None None None (Some ch).

Definition containsEcho (ch : jsstring) : Filters.t :=
  Filters.Make None None None None (Some ch).

Definition cabbageStore : Store :=
  [(lit "cabbage", indexEntry plainDigest (lit "cabbage") exampleTime);
   (lit "a b", indexEntry plainDigest (lit "a b") exampleTime)].

(** Some recognized pattern of index.js matches the lower-cased query. *)
Definition indexPatternMatches (q : jsstring) : bool :=
  let low := toLowerCase q in
  test Index.reSingleWord low || test Index.rePalindrome low ||
  test Index.reLongerThan low || test Index.reAtLeast low ||
  test Index.reFirstVowel low || test Index.reContaining low.

(** Some recognized pattern of part_000 matches the lower-cased query. *)
Definition part000PatternMatches (q : jsstring) : bool :=
  let low := toLowerCase q in
  includes low "palindromic" || includes low "single word" ||
  (includes low "longer than" && test Part000.reLongerThan low) ||
  (includes low "containing the letter" && test Part000.reLetter low).

(** The text right of a run of [p]-characters does not go on with one. *)
Definition stopsRun (p : ascii -> bool) (post : jsstring) : bool :=
  match post with c :: _ => negb (p c) | [] => true end.

(** [map[c] || 0] on a frequency map. *)
Fixpoint freqOf (c : ascii) (m : list (ascii * nat)) : nat :=
  match m with
  | [] => 0
  | (k, n) :: m' => if Ascii.eqb k c then n else freqOf c m'
  end.

(** The counts of a frequency map added up. *)
Definition totalCount (m : list (ascii * nat)) : nat :=
  fold_right (fun kv acc => snd kv + acc) 0 m.

(** A string of white space only (the empty string too). *)
Definition isBlank (s : jsstring) : bool := forallb isWhiteSpace s.

(** Requests served one after the other; the store at the end. *)
Definition serveAll (handle : Store -> request -> response * Store)
           (reqs : list request) (store : Store) : Store :=
  fold_left (fun st req => snd (handle st req)) reqs store.

(** What holds of every record a server has stored: it sits under its own
    [id], the [id] is the digest of its [value] and is repeated in its
    properties, and the properties are the analysis of the [value]. *)
Definition recordOk (sha256 : jsstring -> jsstring) (analyze : jsstring -> Props.t)
           (kv : jsstring * entry) : Prop :=
  fst kv = id (snd kv) /\
  id (snd kv) = sha256 (value (snd kv)) /\
  Props.sha256_hash (properties (snd kv)) = id (snd kv) /\
  properties (snd kv) = analyze (value (snd kv)).

Definition storeOk (sha256 : jsstring -> jsstring) (analyze : jsstring -> Props.t)
           (store : Store) : Prop :=
  NoDup (JsMap.keys store) /\ Forall (recordOk sha256 analyze) store.

(** A digest under which all strings collide, to run the handlers on
    examples. *)
Definition constantDigest (s : jsstring) : jsstring := lit "0".

(* ================================================================== *)
(** ** Strings: equality, prefixes, substrings *)

Lemma streqb_refl (s : jsstring) : streqb s s = true.
Proof.
  induction s as [|c s IH]; simpl; [reflexivity|].
  now rewrite Ascii.eqb_refl.
Qed.

Lemma streqb_eq (a b : jsstring) : streqb a b = true <-> a = b.
Proof.
  split.
  - revert b; induction a as [|x a IH]; intros [|y b]; simpl; try discriminate; auto.
    intros H; apply andb_true_iff in H as [Hxy Hab].
    apply Ascii.eqb_eq in Hxy; subst. f_equal; auto.
  - intros ->; apply streqb_refl.
Qed.

Lemma streqb_neq (a b : jsstring) : streqb a b = false <-> a <> b.
Proof.
  split.
  - intros H E. apply streqb_eq in E. congruence.
  - intros H. destruct (streqb a b) eqn:E; [|reflexivity].
    apply streqb_eq in E. contradiction.
Qed.

Lemma startsWith_app (sub post : jsstring) : startsWith (sub ++ post) sub = true.
Proof.
  induction sub as [|x sub IH]; simpl; [reflexivity|].
  now rewrite Ascii.eqb_refl.
Qed.

Lemma startsWith_inv (s sub : jsstring) :
  startsWith s sub = true -> exists post, s = sub ++ post.
Proof.
  revert s; induction sub as [|x sub IH]; intros s H.
  - now exists s.
  - destruct s as [|y s]; simpl in H; [discriminate|].
    apply andb_true_iff in H as [Hxy Hs].
    apply Ascii.eqb_eq in Hxy; subst.
    destruct (IH _ Hs) as [post ->]. now exists post.
Qed.

Lemma indexOf_Some (s sub : jsstring) (i : nat) :
  indexOf s sub = Some i ->
  exists pre post, s = pre ++ sub ++ post /\ length pre = i.
Proof.
  revert i; induction s as [|c s IH]; intros i; simpl.
  - destruct (startsWith [] sub) eqn:E; [|discriminate].
    intros [= <-]. apply startsWith_inv in E as [post E].
    now exists [], post.
  - destruct (startsWith (c :: s) sub) eqn:E.
    + intros [= <-]. apply startsWith_inv in E as [post E].
      now exists [], post.
    + destruct (indexOf s sub) as [j|] eqn:Ej; simpl; [|discriminate].
      intros [= <-]. destruct (IH j eq_refl) as (pre & post & -> & Hl).
      exists (c :: pre), post. simpl. now rewrite Hl.
Qed.

Lemma indexOf_app (pre sub post : jsstring) :
  exists i, indexOf (pre ++ sub ++ post) sub = Some i.
Proof.
  induction pre as [|c pre [i IH]]; simpl.
  - exists 0. destruct (sub ++ post) eqn:E; simpl; rewrite <- ?E.
    + destruct sub; [reflexivity | discriminate].
    + now rewrite startsWith_app.
  - destruct (startsWith (c :: pre ++ sub ++ post) sub); [now exists 0|].
    rewrite IH. now exists (S i).
Qed.

(** [includes] is the substring test. *)
Lemma includes_spec (s sub : jsstring) :
  includes s sub = true <-> substringOf sub s.
Proof.
  unfold includes, substringOf. split.
  - destruct (indexOf s sub) as [i|] eqn:E; [|discriminate].
    intros _. destruct (indexOf_Some _ _ _ E) as (pre & post & H & _); eauto.
  - intros (pre & post & ->).
    destruct (indexOf_app pre sub post) as [i ->]. reflexivity.
Qed.

(** Every position before the first occurrence is no occurrence. *)
Lemma indexOf_first (pre rst sub : jsstring) :
  indexOf (pre ++ rst) sub = Some (length pre) ->
  forall a b, pre = a ++ b -> b <> [] -> startsWith (b ++ rst) sub = false.
Proof.
  induction pre as [|c pre IH]; intros H a b E Hb.
  - destruct a, b; try discriminate. contradiction.
  - simpl in H. destruct (startsWith (c :: pre ++ rst) sub) eqn:Es; [discriminate|].
    destruct (indexOf (pre ++ rst) sub) as [j|] eqn:Ej; simpl in H; [|discriminate].
    injection H as ->.
    destruct a as [|x a]; simpl in E.
    + subst b. exact Es.
    + injection E as -> E. eapply IH; eauto.
Qed.

(* ================================================================== *)
(** ** [Map] laws *)

Section MapLaws.
Variable V : Type.
Implicit Types (m : JsMap.t V) (k : jsstring) (v : V).

Lemma get_set_same k v m : JsMap.get k (JsMap.set k v m) = Some v.
Proof.
  induction m as [|[k' v'] m IH]; simpl.
  - now rewrite streqb_refl.
  - destruct (streqb k k') eqn:E; simpl; rewrite E; auto.
Qed.

Lemma has_set_same k v m : JsMap.has k (JsMap.set k v m) = true.
Proof. unfold JsMap.has. now rewrite get_set_same. Qed.

Lemma get_delete_same k m : JsMap.get k (JsMap.delete k m) = None.
Proof.
  induction m as [|[k' v'] m IH]; simpl; [reflexivity|].
  destruct (streqb k k') eqn:E; simpl; [assumption|].
  now rewrite E.
Qed.

Lemma has_delete_same k m : JsMap.has k (JsMap.delete k m) = false.
Proof. unfold JsMap.has. now rewrite get_delete_same. Qed.

(** A key the map lacks is appended. *)
Lemma set_fresh k v m : JsMap.has k m = false -> JsMap.set k v m = m ++ [(k, v)].
Proof.
  unfold JsMap.has. induction m as [|[k' v'] m IH]; simpl; [reflexivity|].
  destruct (streqb k k') eqn:E; [discriminate|].
  intros H. now rewrite IH.
Qed.

Lemma delete_absent k m : JsMap.has k m = false -> JsMap.delete k m = m.
Proof.
  unfold JsMap.has. induction m as [|[k' v'] m IH]; simpl; [reflexivity|].
  destruct (streqb k k') eqn:E; [discriminate|].
  intros H. simpl. now rewrite IH.
Qed.

Lemma has_true_get k m : JsMap.has k m = true -> exists v, JsMap.get k m = Some v.
Proof. unfold JsMap.has. destruct (JsMap.get k m); [eauto | discriminate]. Qed.

(** Keys stay distinct under [set] and [delete]. *)
Lemma keys_set_fresh k v m :
  JsMap.has k m = false -> JsMap.keys (JsMap.set k v m) = JsMap.keys m ++ [k].
Proof.
  intros H. rewrite set_fresh by assumption.
  unfold JsMap.keys. now rewrite map_app.
Qed.

Lemma has_false_not_in k m : JsMap.has k m = false -> ~ In k (JsMap.keys m).
Proof.
  unfold JsMap.has. induction m as [|[k' v'] m IH]; simpl; [tauto|].
  destruct (streqb k k') eqn:E; [discriminate|].
  intros H [->|Hin]; [|now apply IH].
  now rewrite streqb_refl in E.
Qed.

Lemma NoDup_keys_set k v m :
  NoDup (JsMap.keys m) -> NoDup (JsMap.keys (JsMap.set k v m)).
Proof.
  induction m as [|[k' v'] m IH]; simpl; intros H.
  - repeat constructor. tauto.
  - destruct (streqb k k') eqn:E; simpl; [assumption|].
    inversion H as [|? ? Hnin Hnd]; subst.
    constructor; [|now apply IH].
    intros Hin. apply Hnin.
    clear -Hin E. induction m as [|[k2 v2] m IHm]; simpl in *.
    + destruct Hin as [->|[]]. now rewrite streqb_refl in E.
    + destruct (streqb k k2); simpl in Hin; tauto.
Qed.

Lemma NoDup_keys_delete k m :
  NoDup (JsMap.keys m) -> NoDup (JsMap.keys (JsMap.delete k m)).
Proof.
  induction m as [|[k' v'] m IH]; simpl; intros H; [constructor|].
  inversion H as [|? ? Hnin Hnd]; subst.
  destruct (streqb k k'); simpl; [now apply IH|].
  constructor; [|now apply IH].
  intros Hin. apply Hnin. unfold JsMap.keys, JsMap.delete in Hin.
  apply in_map_iff in Hin as ([k2 v2] & E & Hf). simpl in E; subst.
  apply filter_In in Hf as [Hf _].
  apply in_map_iff. now exists (k', v2).
Qed.
End MapLaws.

(* ================================================================== *)
(** ** The content store: insert, look up, delete *)

Section StoreHandlers.
Variable sha256 : jsstring -> jsstring.
Implicit Types (store : Store) (s now : jsstring).

Lemma index_post_fresh store s now :
  JsMap.has (sha256 s) store = false ->
  Index.postStrings sha256 store (Body (Some (VString s))) now =
    (Created (Entry (sha256 s) s (Index.analyzeString sha256 s) now),
     store ++ [(sha256 s, Entry (sha256 s) s (Index.analyzeString sha256 s) now)]).
Proof.
  intros H. unfold Index.postStrings. rewrite H.
  now rewrite set_fresh by assumption.
Qed.

Lemma part000_post_fresh store s now :
  JsMap.has (sha256 s) store = false ->
  Part000.postStrings sha256 store (Body (Some (VString s))) now =
    (Created (Entry (sha256 s) s (Part000.analyzeString sha256 s) now),
     store ++ [(sha256 s, Entry (sha256 s) s (Part000.analyzeString sha256 s) now)]).
Proof.
  intros H. unfold Part000.postStrings. simpl. rewrite H.
  now rewrite set_fresh by assumption.
Qed.

Lemma index_post_present store s now :
  JsMap.has (sha256 s) store = true ->
  Index.postStrings sha256 store (Body (Some (VString s))) now =
    (Error 409 "String already exists in the system", store).
Proof. intros H. unfold Index.postStrings. now rewrite H. Qed.

Lemma part000_post_present store s now :
  JsMap.has (sha256 s) store = true ->
  Part000.postStrings sha256 store (Body (Some (VString s))) now =
    (Error 409 "String already exists", store).
Proof. intros H. unfold Part000.postStrings. simpl. now rewrite H. Qed.

Lemma part000_getString_eq store s :
  Part000.getString sha256 store s = Index.getString sha256 store s.
Proof.
  unfold Part000.getString, Index.getString, JsMap.has.
  now destruct (JsMap.get (sha256 s) store).
Qed.

Lemma index_delete_inv store s resp store' :
  Index.deleteString sha256 store s = (resp, store') ->
  (resp = NoContent /\ JsMap.has (sha256 s) store = true /\
   store' = JsMap.delete (sha256 s) store) \/
  (resp = Error 404 "String not found" /\ JsMap.has (sha256 s) store = false /\
   store' = store).
Proof.
  unfold Index.deleteString.
  destruct (JsMap.has (sha256 s) store); simpl; intros [= <- <-]; auto.
Qed.

Lemma index_post_inv store b now resp store' :
  Index.postStrings sha256 store b now = (resp, store') ->
  (exists s, b = Body (Some (VString s)) /\ JsMap.has (sha256 s) store = false /\
     resp = Created (Entry (sha256 s) s (Index.analyzeString sha256 s) now) /\
     store' = store ++ [(sha256 s, Entry (sha256 s) s (Index.analyzeString sha256 s) now)]) \/
  (store' = store /\ exists st msg, resp = Error st msg /\ (st = 400 \/ st = 422 \/ st = 409)).
Proof.
  destruct b as [|[[s|]|]]; simpl.
  - intros [= <- <-]; right; eauto 6.
  - destruct (JsMap.has (sha256 s) store) eqn:E.
    + intros [= <- <-]; right; eauto 7.
    + intros [= <- <-]. left. exists s. rewrite set_fresh by assumption. auto.
  - intros [= <- <-]; right; eauto 7.
  - intros [= <- <-]; right; eauto 6.
Qed.

Lemma part000_post_inv store b now resp store' :
  Part000.postStrings sha256 store b now = (resp, store') ->
  (exists s, b = Body (Some (VString s)) /\ JsMap.has (sha256 s) store = false /\
     resp = Created (Entry (sha256 s) s (Part000.analyzeString sha256 s) now) /\
     store' = store ++ [(sha256 s, Entry (sha256 s) s (Part000.analyzeString sha256 s) now)]) \/
  (store' = store /\
   (resp = Throws \/ exists st msg, resp = Error st msg /\ (st = 400 \/ st = 422 \/ st = 409))).
Proof.
  destruct b as [|[[s|]|]]; simpl.
  - intros [= <- <-]; right; eauto 6.
  - destruct (JsMap.has (sha256 s) store) eqn:E.
    + intros [= <- <-]; right; split; [reflexivity|]. right; eauto 7.
    + intros [= <- <-]. left. exists s. rewrite set_fresh by assumption. auto.
  - intros [= <- <-]; right; split; [reflexivity|]. right; eauto 7.
  - intros [= <- <-]; right; split; [reflexivity|]. right; eauto 7.
Qed.

Lemma index_getStrings_status store q :
  statusOf (Index.getStrings store q) = 200 \/ statusOf (Index.getStrings store q) = 400.
Proof.
  unfold Index.getStrings, Index.listPipeline, andThen,
    Index.palindromeParam, Index.intParam, Index.containsParam.
  destruct q as [[p|] [a|] [b|] [c|] [[|x d]|]]; simpl;
    repeat match goal with
           | |- context [if ?c then _ else _] => destruct c; simpl
           end; auto.
Qed.

Lemma index_nl_status store q :
  statusOf (Index.filterByNaturalLanguage store q) = 200 \/
  statusOf (Index.filterByNaturalLanguage store q) = 400.
Proof.
  unfold Index.filterByNaturalLanguage.
  destruct q as [[|c q]|]; auto.
  destruct (Index.interpret (c :: q)); auto.
Qed.

Lemma part000_nl_status store q :
  statusOf (Part000.filterByNaturalLanguage store q) = 200 \/
  statusOf (Part000.filterByNaturalLanguage store q) = 400.
Proof.
  unfold Part000.filterByNaturalLanguage.
  destruct q as [[|c q]|]; auto.
  destruct (Part000.interpret (c :: q)); auto.
Qed.

Lemma getString_status store s :
  statusOf (Index.getString sha256 store s) = 200 \/
  statusOf (Index.getString sha256 store s) = 404.
Proof. unfold Index.getString. destruct (JsMap.get (sha256 s) store); auto. Qed.

End StoreHandlers.

(** C2 (content addressing).  For every digest function, store and string
    [s] whose digest is no key of the store: [POST /strings] with value [s]
    answers 201 with a record whose [value] is [s] verbatim, a following
    [GET /strings/s] finds that very record, and a second [POST] of [s],
    at any later time, answers 409 Conflict and leaves the stored record in
    place.  This holds of both servers. *)
Theorem content_addressing :
  forall (sha256 : jsstring -> jsstring) (store : Store) (s now : jsstring),
    JsMap.has (sha256 s) store = false ->
    (exists e store1,
        Index.postStrings sha256 store (Body (Some (VString s))) now = (Created e, store1) /\
        value e = s /\
        Index.getString sha256 store1 s = Found e /\
        forall now',
          Index.postStrings sha256 store1 (Body (Some (VString s))) now' =
            (Error 409 "String already exists in the system", store1) /\
          Index.getString sha256 store1 s = Found e) /\
    (exists e store1,
        Part000.postStrings sha256 store (Body (Some (VString s))) now = (Created e, store1) /\
        value e = s /\
        Part000.getString sha256 store1 s = Found e /\
        forall now',
          Part000.postStrings sha256 store1 (Body (Some (VString s))) now' =
            (Error 409 "String already exists", store1) /\
          Part000.getString sha256 store1 s = Found e).
Proof.
  intros sha256 store s now Hfresh. split.
  - eexists; exists (JsMap.set (sha256 s) (Entry (sha256 s) s (Index.analyzeString sha256 s) now) store).
    split.
    { unfold Index.postStrings. rewrite Hfresh. reflexivity. }
    assert (Hget : Index.getString sha256
              (JsMap.set (sha256 s) (Entry (sha256 s) s (Index.analyzeString sha256 s) now) store) s
            = Found (Entry (sha256 s) s (Index.analyzeString sha256 s) now)).
    { unfold Index.getString. now rewrite get_set_same. }
    repeat split; try assumption.
    apply index_post_present, has_set_same.
  - eexists; exists (JsMap.set (sha256 s) (Entry (sha256 s) s (Part000.analyzeString sha256 s) now) store).
    split.
    { unfold Part000.postStrings. simpl. rewrite Hfresh. reflexivity. }
    assert (Hget : Part000.getString sha256
              (JsMap.set (sha256 s) (Entry (sha256 s) s (Part000.analyzeString sha256 s) now) store) s
            = Found (Entry (sha256 s) s (Part000.analyzeString sha256 s) now)).
    { rewrite part000_getString_eq. unfold Index.getString. now rewrite get_set_same. }
    repeat split; try assumption.
    apply part000_post_present, has_set_same.
Qed.

Lemma content_addressing_witness :
  JsMap.has (plainDigest (lit "madam")) (JsMap.empty entry) = false /\
  exists e store1,
    Index.postStrings plainDigest (JsMap.empty entry) (Body (Some (VString (lit "madam"))))
                      (lit "2025-10-18T14:25:00.000Z") = (Created e, store1) /\
    value e = lit "madam".
Proof.
  split; [reflexivity|].
  destruct (content_addressing plainDigest (JsMap.empty entry) (lit "madam")
              (lit "2025-10-18T14:25:00.000Z") eq_refl)
    as [(e & store1 & Hpost & Hval & _) _].
  exists e, store1. split; assumption.
Defined.

(** C7 (deletion is observable).  For every digest function, store and
    string [s]: when [DELETE /strings/s] answers 204, in the store it leaves
    [GET /strings/s] answers 404 and a second [DELETE /strings/s] answers
    404 as well, the store staying as it is.  This holds of both servers. *)
Theorem deletion_observable :
  forall (sha256 : jsstring -> jsstring) (store storeI storeP : Store) (s : jsstring),
    Index.deleteString sha256 store s = (NoContent, storeI) ->
    Part000.deleteString sha256 store s = (NoContent, storeP) ->
    (Index.getString sha256 storeI s = Error 404 "String not found" /\
     Index.deleteString sha256 storeI s = (Error 404 "String not found", storeI)) /\
    (Part000.getString sha256 storeP s = Error 404 "String not found" /\
     Part000.deleteString sha256 storeP s = (Error 404 "String not found", storeP)).
Proof.
  intros sha256 store storeI storeP s HI HP.
  change (Part000.deleteString sha256 store s) with (Index.deleteString sha256 store s) in HP.
  apply index_delete_inv in HI as [(_ & _ & ->)|(E & _)]; [|discriminate].
  apply index_delete_inv in HP as [(_ & _ & ->)|(E & _)]; [|discriminate].
  rewrite part000_getString_eq.
  change (Part000.deleteString sha256) with (Index.deleteString sha256).
  assert (Index.getString sha256 (JsMap.delete (sha256 s) store) s
          = Error 404 "String not found") as Hget.
  { unfold Index.getString. now rewrite get_delete_same. }
  assert (Index.deleteString sha256 (JsMap.delete (sha256 s) store) s
          = (Error 404 "String not found", JsMap.delete (sha256 s) store)) as Hdel.
  { unfold Index.deleteString. now rewrite has_delete_same. }
  auto.
Qed.

Lemma deletion_observable_witness :
  Index.deleteString plainDigest madamStore (lit "madam") = (NoContent, []) /\
  Index.getString plainDigest [] (lit "madam") = Error 404 "String not found" /\
  Index.deleteString plainDigest [] (lit "madam") = (Error 404 "String not found", []).
Proof.
  split; [reflexivity|].
  exact (proj1 (deletion_observable plainDigest madamStore [] [] (lit "madam")
                  eq_refl eq_refl)).
Defined.

(** C9 (atomicity with respect to the store).  For every digest function,
    store and request, served by either server: the store after the request
    differs from the store before it only when the response is 201, and then
    the request was a [POST] of a string whose digest was no key and the
    store gained exactly that record at its end, or when the response is
    204, and then the request was a [DELETE] of a string whose digest was a
    key and the store lost exactly that key.  Every other response, among
    them the 409 of a [POST], the 404 of a [GET] and the 404 of a [DELETE],
    leaves the store exactly as it was. *)
Theorem store_atomicity :
  forall (sha256 : jsstring -> jsstring) (store storeI storeP : Store)
         (req : request) (respI respP : response),
    Index.handle sha256 store req = (respI, storeI) ->
    Part000.handle sha256 store req = (respP, storeP) ->
    ((statusOf respI = 201 /\
      exists s now e, req = PostStrings (Body (Some (VString s))) now /\
        respI = Created e /\ value e = s /\ id e = sha256 s /\
        JsMap.has (sha256 s) store = false /\ storeI = store ++ [(sha256 s, e)]) \/
     (statusOf respI = 204 /\
      exists s, req = DeleteString s /\ JsMap.has (sha256 s) store = true /\
        storeI = JsMap.delete (sha256 s) store) \/
     (statusOf respI <> 201 /\ statusOf respI <> 204 /\ storeI = store)) /\
    ((statusOf respP = 201 /\
      exists s now e, req = PostStrings (Body (Some (VString s))) now /\
        respP = Created e /\ value e = s /\ id e = sha256 s /\
        JsMap.has (sha256 s) store = false /\ storeP = store ++ [(sha256 s, e)]) \/
     (statusOf respP = 204 /\
      exists s, req = DeleteString s /\ JsMap.has (sha256 s) store = true /\
        storeP = JsMap.delete (sha256 s) store) \/
     (statusOf respP <> 201 /\ statusOf respP <> 204 /\ storeP = store)).
Proof.
  intros sha256 store storeI storeP req respI respP HI HP.
  destruct req as [b now|raw|q|q|raw]; simpl in HI, HP.
  - split.
    + apply index_post_inv in HI as [(s & -> & Hf & -> & ->)|(-> & st & msg & -> & Hst)].
      * left. split; [reflexivity|]. exists s, now. eexists. repeat split; auto.
      * right; right. simpl. repeat split; lia.
    + apply part000_post_inv in HP
        as [(s & -> & Hf & -> & ->)|(-> & [->|(st & msg & -> & Hst)])].
      * left. split; [reflexivity|]. exists s, now. eexists. repeat split; auto.
      * right; right. simpl. repeat split; lia.
      * right; right. simpl. repeat split; lia.
  - injection HI as <- <-. injection HP as <- <-.
    rewrite part000_getString_eq.
    destruct (getString_status sha256 store raw) as [E|E]; rewrite E;
      split; right; right; repeat split; lia.
  - injection HI as <- <-. injection HP as <- <-. split.
    + destruct (index_getStrings_status store q) as [E|E]; rewrite E;
        right; right; repeat split; lia.
    + right; right. simpl. repeat split; lia.
  - injection HI as <- <-. injection HP as <- <-. split.
    + destruct (index_nl_status store q) as [E|E]; rewrite E;
        right; right; repeat split; lia.
    + destruct (part000_nl_status store q) as [E|E]; rewrite E;
        right; right; repeat split; lia.
  - change (Part000.deleteString sha256 store raw)
      with (Index.deleteString sha256 store raw) in HP.
    apply index_delete_inv in HI as [(-> & Hh & ->)|(-> & Hh & ->)];
      apply index_delete_inv in HP as [(-> & Hh' & ->)|(-> & Hh' & ->)];
      try congruence; split.
    + right; left. split; [reflexivity|]. now exists raw.
    + right; left. split; [reflexivity|]. now exists raw.
    + right; right. simpl. repeat split; lia.
    + right; right. simpl. repeat split; lia.
Qed.

Lemma store_atomicity_witness :
  Index.handle plainDigest madamStore madamAgain =
    (Error 409 "String already exists in the system", madamStore) /\
  Part000.handle plainDigest madamStore madamAgain =
    (Error 409 "String already exists", madamStore) /\
  (409 <> 201 /\ 409 <> 204 /\ madamStore = madamStore).
Proof.
  split; [reflexivity|]. split; [reflexivity|].
  destruct (store_atomicity plainDigest madamStore madamStore madamStore madamAgain
              _ _ eq_refl eq_refl)
    as [[(H & _)|[(H & _)|H]] _]; [discriminate H | discriminate H | exact H].
Defined.

(* ================================================================== *)
(** ** The matcher on runs of a character class *)

Lemma takeWhile_dropWhile (p : ascii -> bool) (s : jsstring) :
  takeWhile p s ++ dropWhile p s = s.
Proof.
  induction s as [|c s IH]; simpl; [reflexivity|].
  destruct (p c); simpl; [now rewrite IH | reflexivity].
Qed.

Lemma takeWhile_all (p : ascii -> bool) (s : jsstring) : forallb p (takeWhile p s) = true.
Proof.
  induction s as [|c s IH]; simpl; [reflexivity|].
  destruct (p c) eqn:E; simpl; [now rewrite E | reflexivity].
Qed.

Lemma dropWhile_stops (p : ascii -> bool) (s : jsstring) : stopsRun p (dropWhile p s) = true.
Proof.
  induction s as [|c s IH]; simpl; [reflexivity|].
  destruct (p c) eqn:E; simpl; [assumption | now rewrite E].
Qed.


(** [+] is greedy: on a maximal run it hands the whole run to what follows,
    and when that succeeds there is no backtracking. *)
Lemma star_greedy (A : Type) (p : ascii -> bool) (run : jsstring) :
  forall (bef post : jsstring) (cap : option jsstring) (k : cursor -> option A) (a : A),
    forallb p run = true -> stopsRun p post = true ->
    k (Cursor (rev run ++ bef) post cap) = Some a ->
    star p bef (run ++ post) cap k = Some a.
Proof.
  induction run as [|x run IH]; intros bef post cap k a Hrun Hpost Hk; simpl in *.
  - destruct post as [|c post]; simpl in *; [assumption|].
    destruct (p c); [discriminate | assumption].
  - apply andb_true_iff in Hrun as [-> Hrun].
    rewrite (IH (x :: bef) post cap k a); auto.
    now rewrite <- app_assoc in Hk.
Qed.

Lemma matchAt_plus (p : ascii -> bool) (bef rst : jsstring) :
  matchAt (Plus p) bef rst =
    match takeWhile p rst with
    | [] => None
    | _ :: _ => Some (Cursor (rev (takeWhile p rst) ++ bef) (dropWhile p rst) None)
    end.
Proof.
  unfold matchAt. simpl. destruct rst as [|x rst]; simpl; [reflexivity|].
  destruct (p x) eqn:E; [|reflexivity].
  rewrite <- (takeWhile_dropWhile p rst) at 1.
  apply star_greedy.
  - apply takeWhile_all.
  - apply dropWhile_stops.
  - simpl. now rewrite <- app_assoc.
Qed.

Lemma matchAt_plus_length (p : ascii -> bool) (bef rst : jsstring) (c : cursor) :
  matchAt (Plus p) bef rst = Some c ->
  length (before c) - length bef = length (takeWhile p rst) /\ takeWhile p rst <> [].
Proof.
  rewrite matchAt_plus. destruct (takeWhile p rst) as [|x run] eqn:E; [discriminate|].
  intros [= <-]. simpl. split; [|discriminate].
  rewrite length_app, length_app, length_rev. simpl. lia.
Qed.

Lemma matchAt_plus_None (p : ascii -> bool) (bef rst : jsstring) :
  matchAt (Plus p) bef rst = None <-> takeWhile p rst = [].
Proof.
  rewrite matchAt_plus. destruct (takeWhile p rst); split; congruence.
Qed.

(** [replace(/[class]+/g, "")] removes the characters of the class and
    nothing else. *)
Lemma replaceFrom_plus (p : ascii -> bool) (rst : jsstring) :
  forall (bef : jsstring) (skip : nat),
    skip <= length (takeWhile p rst) ->
    replaceFrom (Plus p) [] bef rst skip = filter (fun c => negb (p c)) rst.
Proof.
  induction rst as [|x rst IH]; intros bef skip Hskip; simpl in *.
  - destruct skip; [|lia]. reflexivity.
  - destruct skip as [|n].
    + destruct (matchAt (Plus p) bef (x :: rst)) as [c|] eqn:E.
      * apply matchAt_plus_length in E as [E Hne]. simpl in E, Hne.
        destruct (p x) eqn:Ex; simpl in *; [|congruence].
        rewrite E. apply IH. lia.
      * apply matchAt_plus_None in E. simpl in E.
        destruct (p x) eqn:Ex; [discriminate|]. simpl.
        f_equal. apply IH. lia.
    + destruct (p x) eqn:Ex; simpl in *; [|lia].
      apply IH. lia.
Qed.

Lemma replaceAll_plus (p : ascii -> bool) (s : jsstring) :
  replaceAll (Plus p) [] s = filter (fun c => negb (p c)) s.
Proof. apply replaceFrom_plus. lia. Qed.

Lemma join_rev_splitChars (s : jsstring) : join (rev (splitChars s)) = rev s.
Proof.
  unfold join, splitChars. induction s as [|c s IH]; simpl; [reflexivity|].
  rewrite concat_app, IH. simpl. reflexivity.
Qed.

(** [isPalindrome] of index.js compares the normal form with its reversal. *)
Lemma index_isPalindrome_spec (s : jsstring) :
  Index.isPalindrome s = streqb (normalForm s) (rev (normalForm s)).
Proof.
  unfold Index.isPalindrome, normalForm.
  now rewrite replaceAll_plus, join_rev_splitChars.
Qed.

(** The normal form keeps, in order, exactly the characters of the
    lower-cased string that are not white space. *)
Lemma normalForm_keeps (s : jsstring) (c : ascii) :
  In c (normalForm s) <-> In c (toLowerCase s) /\ isWhiteSpace c = false.
Proof.
  unfold normalForm. rewrite filter_In.
  now rewrite negb_true_iff.
Qed.

(** [analyzeString] of part_000 answers [true] whatever the string. *)
Lemma part000_isPalindrome_always (s : jsstring) : Part000.isPalindrome s = true.
Proof.
  unfold Part000.isPalindrome, splitNoSeparator, join. simpl.
  rewrite app_nil_r. apply streqb_refl.
Qed.

Lemma the_spec_example_is_no_palindrome :
  normalForm (lit "A man A") = lit "amana" /\
  rev (normalForm (lit "A man A")) = lit "anama" /\
  Index.isPalindrome (lit "A man A") = false.
Proof. repeat split; reflexivity. Qed.

(** C3 (palindrome normalization, as index.js computes it).  For every
    string [s] the property [is_palindrome] of [analyzeString s] is the
    comparison of the normal form of [s] with its character-wise reversal,
    where the normal form is [s] lower-cased with the white space removed
    and every other character, punctuation included, kept.  "A man A" has
    the normal form "amana", which reads "anama" backwards, so its
    [is_palindrome] is false; "hello" gives false, "A m A" gives true, and
    "A man, a plan, a canal: Panama" gives false because its punctuation
    stays. *)
Theorem palindrome_normalization :
  forall (sha256 : jsstring -> jsstring) (s : jsstring),
    Props.is_palindrome (Index.analyzeString sha256 s) =
      streqb (normalForm s) (rev (normalForm s)) /\
    (Props.is_palindrome (Index.analyzeString sha256 s) = true <->
     normalForm s = rev (normalForm s)) /\
    (forall c, In c (normalForm s) <-> In c (toLowerCase s) /\ isWhiteSpace c = false) /\
    Props.is_palindrome (Index.analyzeString sha256 (lit "A man A")) = false /\
    Props.is_palindrome (Index.analyzeString sha256 (lit "hello")) = false /\
    Props.is_palindrome (Index.analyzeString sha256 (lit "A m A")) = true /\
    Props.is_palindrome
      (Index.analyzeString sha256 (lit "A man, a plan, a canal: Panama")) = false.
Proof.
  intros sha256 s. simpl.
  split; [apply index_isPalindrome_spec|].
  split; [rewrite index_isPalindrome_spec; apply streqb_eq|].
  split; [apply normalForm_keeps|].
  repeat split; reflexivity.
Qed.

(** The example of the specification fails on index.js: "A man A" is no
    palindrome after normalization. *)
Lemma palindrome_example_counterexample :
  Index.isPalindrome (lit "A man A") <> true.
Proof.
  destruct the_spec_example_is_no_palindrome as (_ & _ & H).
  rewrite H. discriminate.
Qed.

(* ================================================================== *)
(** ** Word count *)

Lemma truthy_rev (s : jsstring) : truthy (rev s) = truthy s.
Proof.
  destruct s as [|c s]; simpl; [reflexivity|].
  destruct (rev s); reflexivity.
Qed.

(** The non-empty pieces [split(/\s+/)] yields are the tokens. *)
Lemma splitFrom_tokens (rst : jsstring) :
  forall (bef piece : jsstring) (skip : nat),
    skip <= length (takeWhile isWhiteSpace rst) ->
    (skip <> 0 -> piece = []) ->
    filter truthy (splitFrom (Plus isWhiteSpace) bef rst piece skip) = tokensFrom rst piece.
Proof.
  induction rst as [|x rst IH]; intros bef piece skip Hskip Hpiece; simpl in *.
  - rewrite truthy_rev. destruct piece; reflexivity.
  - destruct skip as [|n].
    + destruct (matchAt (Plus isWhiteSpace) bef (x :: rst)) as [c|] eqn:E.
      * apply matchAt_plus_length in E as [E Hne]. simpl in E, Hne.
        destruct (isWhiteSpace x) eqn:Ex; simpl in *; [|congruence].
        rewrite E. destruct piece as [|y piece].
        -- simpl. apply IH; [lia | reflexivity].
        -- cbn [filter]. rewrite truthy_rev. simpl truthy. cbv iota.
           f_equal. apply IH; [lia | reflexivity].
      * apply matchAt_plus_None in E. simpl in E.
        destruct (isWhiteSpace x) eqn:Ex; [discriminate|].
        apply IH; [lia | intros H; contradiction].
    + rewrite (Hpiece (Nat.neq_succ_0 n)).
      destruct (isWhiteSpace x) eqn:Ex; simpl in *; [|lia].
      apply IH; [lia | reflexivity].
Qed.

Lemma split_tokens (s : jsstring) :
  filter truthy (split (Plus isWhiteSpace) s) = tokens s.
Proof.
  destruct s as [|c s]; [reflexivity|].
  unfold split, tokens. apply splitFrom_tokens; [lia | congruence].
Qed.

Lemma tokensFrom_dropWhile (s : jsstring) :
  tokensFrom (dropWhile isWhiteSpace s) [] = tokensFrom s [].
Proof.
  induction s as [|c s IH]; simpl; [reflexivity|].
  destruct (isWhiteSpace c) eqn:E; [assumption|].
  simpl. now rewrite E.
Qed.

Lemma tokensFrom_snoc_space (s : jsstring) (w : ascii) :
  isWhiteSpace w = true ->
  forall piece, tokensFrom (s ++ [w]) piece = tokensFrom s piece.
Proof.
  intros Hw. induction s as [|c s IH]; intros piece; simpl.
  - rewrite Hw. destruct piece; reflexivity.
  - destruct (isWhiteSpace c); [destruct piece|]; now rewrite IH.
Qed.

Lemma tokensFrom_trimEnd (l : jsstring) :
  tokensFrom (rev (dropWhile isWhiteSpace l)) [] = tokensFrom (rev l) [].
Proof.
  induction l as [|c l IH]; simpl; [reflexivity|].
  destruct (isWhiteSpace c) eqn:E; [|reflexivity].
  now rewrite IH, tokensFrom_snoc_space.
Qed.

(** Trimming changes no token. *)
Lemma tokens_trim (s : jsstring) : tokens (trim s) = tokens s.
Proof.
  unfold tokens, trim.
  now rewrite tokensFrom_trimEnd, rev_involutive, tokensFrom_dropWhile.
Qed.

(** [countWords] of index.js counts the tokens. *)
Lemma index_countWords_spec (s : jsstring) :
  filter truthy (split (Plus isWhiteSpace) (trim s)) = tokens s /\
  Index.countWords s = length (tokens s).
Proof.
  assert (H : filter truthy (split (Plus isWhiteSpace) (trim s)) = tokens s)
    by now rewrite split_tokens, tokens_trim.
  split; [assumption|].
  unfold Index.countWords. destruct s as [|c s]; [reflexivity|].
  now rewrite H.
Qed.

(** What [tokens] is: white space separates, and a run without white space
    is one token. *)
Lemma tokensFrom_word (t : jsstring) :
  forall piece, forallb (fun c => negb (isWhiteSpace c)) t = true ->
    tokensFrom t piece = match rev piece ++ t with [] => [] | _ :: _ => [rev piece ++ t] end.
Proof.
  induction t as [|c t IH]; intros piece Ht; simpl in *.
  - rewrite app_nil_r. destruct piece as [|y piece]; [reflexivity|].
    simpl. destruct (rev piece ++ [y]) eqn:E; [|reflexivity].
    now destruct (rev piece).
  - apply andb_true_iff in Ht as [Hc Ht]. apply negb_true_iff in Hc. rewrite Hc.
    rewrite IH by assumption. simpl. now rewrite <- app_assoc.
Qed.

Lemma tokens_word (t : jsstring) :
  t <> [] -> forallb (fun c => negb (isWhiteSpace c)) t = true -> tokens t = [t].
Proof.
  intros Hne Ht. unfold tokens. rewrite tokensFrom_word by assumption.
  simpl. destruct t; [contradiction | reflexivity].
Qed.

Lemma tokensFrom_app_space (a b : jsstring) (w : ascii) :
  isWhiteSpace w = true ->
  forall piece, tokensFrom (a ++ w :: b) piece = tokensFrom a piece ++ tokensFrom b [].
Proof.
  intros Hw. induction a as [|c a IH]; intros piece; simpl.
  - rewrite Hw. destruct piece; reflexivity.
  - destruct (isWhiteSpace c); [destruct piece|]; now rewrite IH.
Qed.

Lemma tokens_app_space (a b : jsstring) (w : ascii) :
  isWhiteSpace w = true -> tokens (a ++ w :: b) = tokens a ++ tokens b.
Proof. intros Hw. now apply tokensFrom_app_space. Qed.

(* ================================================================== *)
(** ** The filter engine *)

Lemma filter_filter (A : Type) (p q : A -> bool) (l : list A) :
  filter q (filter p l) = filter (fun x => p x && q x) l.
Proof.
  induction l as [|x l IH]; simpl; [reflexivity|].
  destruct (p x); simpl; [destruct (q x)|]; now rewrite IH.
Qed.

(** Filtering by each predicate in turn is filtering by their conjunction. *)
Lemma filterEach_conj (ps : list (entry -> bool)) :
  forall records,
    filterEach ps records = filter (fun r => forallb (fun p => p r) ps) records.
Proof.
  unfold filterEach. induction ps as [|p ps IH]; intros records; simpl.
  - induction records as [|r records IHr]; simpl; [reflexivity | now rewrite <- IHr].
  - now rewrite IH, filter_filter.
Qed.

Lemma forallb_Permutation (r : entry) (ps ps' : list (entry -> bool)) :
  Permutation ps ps' ->
  forallb (fun p => p r) ps = forallb (fun p => p r) ps'.
Proof.
  induction 1 as [|p l l' _ IH|p p' l|l l' l'' _ IH1 _ IH2]; simpl.
  - reflexivity.
  - now rewrite IH.
  - now rewrite !andb_assoc, (andb_comm (p' r)).
  - now rewrite IH1.
Qed.

(** The order in which the predicates are applied does not matter. *)
Lemma filterEach_Permutation (ps ps' : list (entry -> bool)) (records : list entry) :
  Permutation ps ps' -> filterEach ps records = filterEach ps' records.
Proof.
  intros H. rewrite !filterEach_conj. apply filter_ext.
  intros r. now apply forallb_Permutation.
Qed.

Lemma filterEach_satisfies (f : Filters.t) (records : list entry) :
  filterEach (predicates f) records = filter (satisfies f) records.
Proof. apply filterEach_conj. Qed.

Lemma satisfies_spec (f : Filters.t) (r : entry) :
  satisfies f r = true <-> forall p, In p (predicates f) -> p r = true.
Proof. unfold satisfies. apply forallb_forall. Qed.

(** The chain of [results.filter] calls of a [GET /strings]. *)
Lemma filterIf_chain (f : Filters.t) (records : list entry) :
  filterIf (Filters.contains_character f) byContains
    (filterIf (Filters.word_count f) byWordCount
      (filterIf (Filters.max_length f) byMaxLength
        (filterIf (Filters.min_length f) byMinLength
          (filterIf (Filters.is_palindrome f) byPalindrome records)))) =
  filterEach (predicates f) records.
Proof. destruct f as [[b|] [n|] [m|] [w|] [ch|]]; reflexivity. Qed.

Lemma index_palindromeParam_inv (raw : option jsstring) (st st' : Index.listState) :
  Index.palindromeParam raw st = inr st' ->
  st' = (filterIf (option_map (fun s => streqb (toLowerCase s) (lit "true")) raw)
                  byPalindrome (fst st),
         match raw with
         | Some s => Filters.set_is_palindrome (streqb (toLowerCase s) (lit "true")) (snd st)
         | None => snd st
         end).
Proof.
  unfold Index.palindromeParam. destruct raw as [s|]; simpl.
  - match goal with |- context [if ?c then _ else _] => destruct c end; [|discriminate].
    now intros [= <-].
  - intros [= <-]. now destruct st.
Qed.

Lemma index_intParam_inv (raw : option jsstring) (msg : string)
      (record : number -> Filters.t -> Filters.t) (keep : number -> entry -> bool)
      (st st' : Index.listState) :
  Index.intParam raw msg record keep st = inr st' ->
  st' = (filterIf (option_map parseInt10 raw) keep (fst st),
         match raw with
         | Some s => record (parseInt10 s) (snd st)
         | None => snd st
         end) /\
  match raw with Some s => isNaN (parseInt10 s) = false | None => True end.
Proof.
  unfold Index.intParam. destruct raw as [s|]; simpl.
  - destruct (isNaN (parseInt10 s)); [discriminate|].
    now intros [= <-].
  - intros [= <-]. now destruct st.
Qed.

Lemma index_containsParam_inv (raw : option jsstring) (st st' : Index.listState) :
  Index.containsParam raw st = inr st' ->
  st' = (filterIf raw byContains (fst st),
         match raw with
         | Some ch => Filters.set_contains_character ch (snd st)
         | None => snd st
         end) /\
  raw <> Some [].
Proof.
  unfold Index.containsParam. destruct raw as [[|c ch]|]; simpl.
  - discriminate.
  - intros [= <-]. split; [reflexivity | discriminate].
  - intros [= <-]. split; [now destruct st | discriminate].
Qed.

Lemma andThen_inr (A B : Type) (x : early A) (f : A -> early B) (b : B) :
  x >>= f = inr b -> exists a, x = inr a /\ f a = inr b.
Proof. destruct x as [r|a]; simpl; [discriminate | eauto]. Qed.

(** A [GET /strings] of index.js that answers 200 echoes the typed filters
    and returns the records passing each of them. *)
Lemma index_getStrings_inv (store : Store) (q : Query.t)
      (data : list entry) (count : nat) (applied : Filters.t) :
  Index.getStrings store q = OkList data count applied ->
  applied = typedFilters q /\
  data = filterEach (predicates applied) (JsMap.values store) /\
  count = length data.
Proof.
  unfold Index.getStrings.
  destruct (Index.listPipeline store q) as [r|[results fa]] eqn:E.
  - intros ->. exfalso. revert E. unfold Index.listPipeline, andThen.
    unfold Index.palindromeParam, Index.intParam, Index.containsParam.
    destruct q as [[p|] [a|] [b|] [c|] [[|x d]|]]; simpl;
      repeat match goal with
             | |- context [if ?c then _ else _] => destruct c; simpl
             end; discriminate.
  - intros [= <- <- <-].
    unfold Index.listPipeline in E.
    apply andThen_inr in E as (s4 & E & H5).
    apply andThen_inr in E as (s3 & E & H4).
    apply andThen_inr in E as (s2 & E & H3).
    apply andThen_inr in E as (s1 & E & H2).
    apply andThen_inr in E as (s0 & E & H1).
    injection E as <-.
    apply index_palindromeParam_inv in H1.
    apply index_intParam_inv in H2 as [H2 _].
    apply index_intParam_inv in H3 as [H3 _].
    apply index_intParam_inv in H4 as [H4 _].
    apply index_containsParam_inv in H5 as [H5 _].
    subst s1 s2 s3 s4. injection H5 as -> ->.
    destruct q as [[p|] [a|] [b|] [c|] [d|]]; repeat split; reflexivity.
Qed.

(** [GET /strings] of part_000 rejects nothing. *)
Lemma part000_getStrings_eq (store : Store) (q : Query.t) :
  Part000.getStrings store q =
    OkList (filterEach (predicates (Part000.listFilters q)) (JsMap.values store))
           (length (filterEach (predicates (Part000.listFilters q)) (JsMap.values store)))
           (Part000.listFilters q).
Proof.
  unfold Part000.getStrings. now rewrite filterIf_chain.
Qed.

Lemma index_getStrings_accepted (store : Store) (q : Query.t) :
  accepted q = true ->
  Index.getStrings store q =
    OkList (filter (satisfies (typedFilters q)) (JsMap.values store))
           (length (filter (satisfies (typedFilters q)) (JsMap.values store)))
           (typedFilters q).
Proof.
  intros Hq.
  destruct (Index.getStrings store q) as [| |data count applied| | | |] eqn:E;
    try (exfalso; revert Hq E;
         unfold accepted, Index.getStrings, Index.listPipeline, andThen,
           Index.palindromeParam, Index.intParam, Index.containsParam;
         destruct q as [[p|] [a|] [b|] [c|] [[|x d]|]]; simpl;
         repeat match goal with
                | |- context [if ?c then _ else _] => destruct c; simpl
                end; discriminate).
  apply index_getStrings_inv in E as (-> & -> & ->).
  now rewrite filterEach_satisfies.
Qed.


Section Scenario.
Variable sha256 : jsstring -> jsstring.
Variables t1 t2 t3 : jsstring.
Hypothesis aa_aaa : sha256 (lit "aa") <> sha256 (lit "aaa").
Hypothesis aa_ab : sha256 (lit "aa") <> sha256 (lit "ab").
Hypothesis aaa_ab : sha256 (lit "aaa") <> sha256 (lit "ab").

Lemma has_two (k k1 k2 : jsstring) (e1 e2 : entry) :
  k1 <> k -> k2 <> k -> JsMap.has k [(k1, e1); (k2, e2)] = false.
Proof.
  intros H1 H2. unfold JsMap.has. simpl.
  assert (E1 : streqb k k1 = false) by (apply streqb_neq; congruence).
  assert (E2 : streqb k k2 = false) by (apply streqb_neq; congruence).
  now rewrite E1, E2.
Qed.

Lemma has_one (k k1 : jsstring) (e1 : entry) :
  k1 <> k -> JsMap.has k [(k1, e1)] = false.
Proof.
  intros H1. unfold JsMap.has. simpl.
  assert (E1 : streqb k k1 = false) by (apply streqb_neq; congruence).
  now rewrite E1.
Qed.

Lemma index_three_inserts :
  JsMap.values (insertAll (Index.postStrings sha256) (scenarioPosts t1 t2 t3)
                         (JsMap.empty entry)) =
    [Entry (sha256 (lit "aa")) (lit "aa") (Index.analyzeString sha256 (lit "aa")) t1;
     Entry (sha256 (lit "aaa")) (lit "aaa") (Index.analyzeString sha256 (lit "aaa")) t2;
     Entry (sha256 (lit "ab")) (lit "ab") (Index.analyzeString sha256 (lit "ab")) t3].
Proof.
  unfold insertAll, scenarioPosts. cbn [fold_left fst snd].
  rewrite (index_post_fresh sha256 (JsMap.empty entry) (lit "aa") t1) by reflexivity.
  cbn [snd app JsMap.empty].
  rewrite (index_post_fresh sha256 [_] (lit "aaa") t2) by (apply has_one; assumption).
  cbn [snd app].
  rewrite (index_post_fresh sha256 [_; _] (lit "ab") t3) by (apply has_two; assumption).
  reflexivity.
Qed.

Lemma part000_three_inserts :
  JsMap.values (insertAll (Part000.postStrings sha256) (scenarioPosts t1 t2 t3)
                         (JsMap.empty entry)) =
    [Entry (sha256 (lit "aa")) (lit "aa") (Part000.analyzeString sha256 (lit "aa")) t1;
     Entry (sha256 (lit "aaa")) (lit "aaa") (Part000.analyzeString sha256 (lit "aaa")) t2;
     Entry (sha256 (lit "ab")) (lit "ab") (Part000.analyzeString sha256 (lit "ab")) t3].
Proof.
  unfold insertAll, scenarioPosts. cbn [fold_left fst snd].
  rewrite (part000_post_fresh sha256 (JsMap.empty entry) (lit "aa") t1) by reflexivity.
  cbn [snd app JsMap.empty].
  rewrite (part000_post_fresh sha256 [_] (lit "aaa") t2) by (apply has_one; assumption).
  cbn [snd app].
  rewrite (part000_post_fresh sha256 [_; _] (lit "ab") t3) by (apply has_two; assumption).
  reflexivity.
Qed.
End Scenario.

Lemma filter_satisfies_In (f : Filters.t) (records : list entry) (r : entry) :
  In r (filter (satisfies f) records) <->
  In r records /\ forall p, In p (predicates f) -> p r = true.
Proof. now rewrite filter_In, satisfies_spec. Qed.

Lemma filterEach_any_order (f : Filters.t) (records : list entry) (ps : list (entry -> bool)) :
  Permutation ps (predicates f) -> filterEach ps records = filter (satisfies f) records.
Proof.
  intros H. rewrite (filterEach_Permutation ps (predicates f)) by assumption.
  apply filterEach_satisfies.
Qed.

(** C4 (the filters compose by AND).  For every store and every query
    [GET /strings] of index.js accepts, the response echoes the typed value
    of exactly the parameters given and returns exactly the stored records
    that satisfy the predicate of every field present; fields absent add no
    predicate, and applying the predicates one after the other in any order
    gives the same records.  [GET /strings] of part_000 accepts every query
    and does the same with its own typing of the parameters.  With "aa",
    "aaa" and "ab" posted to an empty store (their digests distinct), the
    query min_length=2, contains_character=a echoes min_length 2 and
    contains_character "a" and returns the records of all three strings:
    "ab" too has two characters and contains "a". *)
Theorem filter_and_composition :
  forall (sha256 : jsstring -> jsstring) (t1 t2 t3 : jsstring) (store : Store) (q : Query.t),
    accepted q = true ->
    sha256 (lit "aa") <> sha256 (lit "aaa") ->
    sha256 (lit "aa") <> sha256 (lit "ab") ->
    sha256 (lit "aaa") <> sha256 (lit "ab") ->
    (exists data,
        Index.getStrings store q = OkList data (length data) (typedFilters q) /\
        (forall r, In r data <->
                   In r (JsMap.values store) /\
                   forall p, In p (predicates (typedFilters q)) -> p r = true) /\
        (forall ps, Permutation ps (predicates (typedFilters q)) ->
                    filterEach ps (JsMap.values store) = data)) /\
    (exists data,
        Part000.getStrings store q = OkList data (length data) (Part000.listFilters q) /\
        (forall r, In r data <->
                   In r (JsMap.values store) /\
                   forall p, In p (predicates (Part000.listFilters q)) -> p r = true) /\
        (forall ps, Permutation ps (predicates (Part000.listFilters q)) ->
                    filterEach ps (JsMap.values store) = data)) /\
    predicates Filters.empty = [] /\
    Index.getStrings store Query.empty =
      OkList (JsMap.values store) (length (JsMap.values store)) Filters.empty /\
    Index.getStrings
      (insertAll (Index.postStrings sha256) (scenarioPosts t1 t2 t3) (JsMap.empty entry))
      scenarioQuery =
      OkList [indexEntry sha256 (lit "aa") t1; indexEntry sha256 (lit "aaa") t2;
              indexEntry sha256 (lit "ab") t3]
             3 scenarioEcho /\
    Part000.getStrings
      (insertAll (Part000.postStrings sha256) (scenarioPosts t1 t2 t3) (JsMap.empty entry))
      scenarioQuery =
      OkList [part000Entry sha256 (lit "aa") t1; part000Entry sha256 (lit "aaa") t2;
              part000Entry sha256 (lit "ab") t3]
             3 scenarioEcho.
Proof.
  intros sha256 t1 t2 t3 store q Hq H1 H2 H3.
  split; [|split; [|split; [|split; [|split]]]].
  - exists (filter (satisfies (typedFilters q)) (JsMap.values store)).
    split; [now apply index_getStrings_accepted|].
    split; [intros r; apply filter_satisfies_In|].
    intros ps; apply filterEach_any_order.
  - exists (filter (satisfies (Part000.listFilters q)) (JsMap.values store)).
    split; [rewrite part000_getStrings_eq; now rewrite filterEach_satisfies|].
    split; [intros r; apply filter_satisfies_In|].
    intros ps; apply filterEach_any_order.
  - reflexivity.
  - reflexivity.
  - rewrite index_getStrings_accepted by reflexivity.
    rewrite index_three_inserts by assumption. reflexivity.
  - rewrite part000_getStrings_eq, filterEach_satisfies.
    rewrite part000_three_inserts by assumption. reflexivity.
Qed.

Lemma filter_and_composition_witness :
  accepted scenarioQuery = true /\
  plainDigest (lit "aa") <> plainDigest (lit "aaa") /\
  plainDigest (lit "aa") <> plainDigest (lit "ab") /\
  plainDigest (lit "aaa") <> plainDigest (lit "ab") /\
  Index.getStrings scenarioStore scenarioQuery =
    OkList [indexEntry plainDigest (lit "aa") (lit "t1");
            indexEntry plainDigest (lit "aaa") (lit "t2");
            indexEntry plainDigest (lit "ab") (lit "t3")]
           3 scenarioEcho.
Proof.
  assert (H1 : plainDigest (lit "aa") <> plainDigest (lit "aaa")) by discriminate.
  assert (H2 : plainDigest (lit "aa") <> plainDigest (lit "ab")) by discriminate.
  assert (H3 : plainDigest (lit "aaa") <> plainDigest (lit "ab")) by discriminate.
  repeat (split; [assumption || reflexivity|]).
  destruct (filter_and_composition plainDigest (lit "t1") (lit "t2") (lit "t3")
              madamStore scenarioQuery eq_refl H1 H2 H3)
    as (_ & _ & _ & _ & H & _).
  exact H.
Defined.

(** The scenario returns three records, not only those of "aa" and "aaa". *)
Lemma filter_scenario_counterexample :
  Index.getStrings scenarioStore scenarioQuery <>
    OkList [indexEntry plainDigest (lit "aa") (lit "t1");
            indexEntry plainDigest (lit "aaa") (lit "t2")] 2 scenarioEcho.
Proof. vm_compute. intros H. discriminate H. Qed.

(** C10 ([contains_character] is a substring test).  For every store and
    every non-empty string [ch], of one character or of several,
    [GET /strings] with the only parameter contains_character=[ch] answers
    200, echoes [ch], and returns exactly the stored records whose raw
    [value] has [ch] as a contiguous substring.  This holds of both
    servers. *)
Theorem contains_character_is_substring_test :
  forall (store : Store) (ch : jsstring),
    ch <> [] ->
    (exists data,
        Index.getStrings store (containsOnly ch) = OkList data (length data) (containsEcho ch) /\
        forall r, In r data <-> In r (JsMap.values store) /\ substringOf ch (value r)) /\
    (exists data,
        Part000.getStrings store (containsOnly ch) = OkList data (length data) (containsEcho ch) /\
        forall r, In r data <-> In r (JsMap.values store) /\ substringOf ch (value r)).
Proof.
  intros store ch Hch.
  assert (Hin : forall r, In r (filter (byContains ch) (JsMap.values store)) <->
                          In r (JsMap.values store) /\ substringOf ch (value r)).
  { intros r. rewrite filter_In. unfold byContains. now rewrite includes_spec. }
  split; exists (filter (byContains ch) (JsMap.values store)); (split; [|exact Hin]).
  - destruct ch as [|c ch]; [contradiction|]. reflexivity.
  - reflexivity.
Qed.

Lemma contains_character_is_substring_test_witness :
  lit "ab" <> [] /\
  exists data,
    Index.getStrings cabbageStore (containsOnly (lit "ab")) =
      OkList data (length data) (containsEcho (lit "ab")) /\
    (In (indexEntry plainDigest (lit "cabbage") exampleTime) data <->
     In (indexEntry plainDigest (lit "cabbage") exampleTime) (JsMap.values cabbageStore) /\
     substringOf (lit "ab") (lit "cabbage")).
Proof.
  assert (H : lit "ab" <> []) by discriminate.
  split; [exact H|].
  destruct (contains_character_is_substring_test cabbageStore (lit "ab") H)
    as [(data & Hget & Hin) _].
  exists data. split; [exact Hget|].
  exact (Hin (indexEntry plainDigest (lit "cabbage") exampleTime)).
Defined.

(** C1 (natural-language equivalence).  Both servers interpret the text
    "all single word palindromic strings" as the filter object with
    word_count 1 and is_palindrome true and nothing else; and for every
    store, the natural-language handler on that text and [GET /strings]
    with is_palindrome=true, word_count=1 return the same records, in the
    same order, and report that same filter object. *)
Theorem natural_language_equivalence :
  Index.interpret nlText = Some nlFilters /\
  Part000.interpret nlText = Some nlFilters /\
  forall store : Store,
    (exists data,
        Index.filterByNaturalLanguage store (Some nlText) =
          OkQuery data (length data) nlText nlFilters /\
        Index.getStrings store nlQuery = OkList data (length data) nlFilters) /\
    (exists data,
        Part000.filterByNaturalLanguage store (Some nlText) =
          OkQuery data (length data) nlText nlFilters /\
        Part000.getStrings store nlQuery = OkList data (length data) nlFilters).
Proof.
  assert (HI : Index.interpret nlText = Some nlFilters) by (vm_compute; reflexivity).
  assert (HP : Part000.interpret nlText = Some nlFilters) by (vm_compute; reflexivity).
  split; [exact HI|]. split; [exact HP|].
  intros store. split.
  - exists (filter (byWordCount (Num 1)) (filter (byPalindrome true) (JsMap.values store))).
    split.
    + change (Index.filterByNaturalLanguage store (Some nlText))
        with (match Index.interpret nlText with
              | None => Error 400 "Unable to parse natural language query"
              | Some parsed =>
                  OkQuery (Index.applyParsed parsed (JsMap.values store))
                          (length (Index.applyParsed parsed (JsMap.values store)))
                          nlText parsed
              end).
      rewrite HI. reflexivity.
    + rewrite index_getStrings_accepted by reflexivity.
      rewrite <- filterEach_satisfies. reflexivity.
  - exists (filter (byWordCount (Num 1)) (filter (byPalindrome true) (JsMap.values store))).
    split.
    + change (Part000.filterByNaturalLanguage store (Some nlText))
        with (match Part000.interpret nlText with
              | None => Error 400 "Unable to parse query"
              | Some parsed =>
                  OkQuery (Part000.applyParsed parsed (JsMap.values store))
                          (length (Part000.applyParsed parsed (JsMap.values store)))
                          nlText parsed
              end).
      rewrite HP.
      assert (E : Part000.applyParsed nlFilters (JsMap.values store) =
                  filter (byWordCount (Num 1))
                         (filter (byPalindrome true) (JsMap.values store))).
      { unfold Part000.applyParsed, nlFilters, filterIf. simpl. f_equal.
        apply filter_ext. intros r. unfold byPalindrome.
        now destruct (Props.is_palindrome (properties r)). }
      now rewrite E.
    + rewrite part000_getStrings_eq. reflexivity.
Qed.

(* ================================================================== *)
(** ** The query interpreter: queries it cannot read *)

Lemma test_false (r : regex) (s : jsstring) : test r s = false -> exec r s = None.
Proof. unfold test. destruct (exec r s); [discriminate | reflexivity]. Qed.

Lemma test_true (r : regex) (s : jsstring) :
  test r s = true -> exists m, exec r s = Some m.
Proof. unfold test. destruct (exec r s) as [m|]; [eauto | discriminate]. Qed.

Lemma index_no_match_unparseable (q : jsstring) :
  indexPatternMatches q = false -> Index.interpret q = None.
Proof.
  unfold indexPatternMatches. intros H.
  repeat (apply orb_false_iff in H as [H ?]).
  unfold Index.interpret, Index.parseQuery.
  repeat match goal with
         | Ht : test ?r ?s = false |- _ =>
             rewrite ?Ht, ?(test_false r s Ht); clear Ht
         end.
  reflexivity.
Qed.

Lemma part000_no_match_unparseable (q : jsstring) :
  part000PatternMatches q = false -> Part000.interpret q = None.
Proof.
  unfold part000PatternMatches. intros H.
  apply orb_false_iff in H as [H Hletter].
  apply orb_false_iff in H as [H Hlonger].
  apply orb_false_iff in H as [Hpal Hsingle].
  unfold Part000.interpret, Part000.parseQuery.
  rewrite Hpal, Hsingle.
  destruct (includes (toLowerCase q) (lit "longer than")); cbn [andb] in Hlonger;
    [rewrite (test_false _ _ Hlonger)|];
    (destruct (includes (toLowerCase q) (lit "containing the letter"));
     cbn [andb] in Hletter; [rewrite (test_false _ _ Hletter)|]); reflexivity.
Qed.

Lemma index_interpret_nonempty (q : jsstring) (f : Filters.t) :
  Index.interpret q = Some f -> Filters.isEmpty f = false /\ f <> Filters.empty.
Proof.
  unfold Index.interpret.
  destruct (Filters.isEmpty (Index.parseQuery q)) eqn:E; [discriminate|].
  intros [= <-]. split; [assumption|].
  intros H. now rewrite H in E.
Qed.

Lemma part000_interpret_nonempty (q : jsstring) (f : Filters.t) :
  Part000.interpret q = Some f -> Filters.isEmpty f = false /\ f <> Filters.empty.
Proof.
  unfold Part000.interpret.
  destruct (Filters.isEmpty (Part000.parseQuery q)) eqn:E; [discriminate|].
  intros [= <-]. split; [assumption|].
  intros H. now rewrite H in E.
Qed.

(** C6 (unparseable is a distinct outcome).  For every query text in which
    no recognized pattern matches, the interpreter of either server gives
    the outcome "unable to parse" and no filter object; a filter object it
    does give is never the empty one; the handler then answers 400 with the
    message of that outcome, and never answers 200 with an empty filter
    object (which would list every record).  "tell me a joke" is such a
    text. *)
Theorem unparseable_is_distinct :
  forall (store : Store) (q : jsstring),
    (indexPatternMatches q = false -> Index.interpret q = None) /\
    (part000PatternMatches q = false -> Part000.interpret q = None) /\
    (forall f, Index.interpret q = Some f -> Filters.isEmpty f = false /\ f <> Filters.empty) /\
    (forall f, Part000.interpret q = Some f -> Filters.isEmpty f = false /\ f <> Filters.empty) /\
    (q <> [] -> Index.interpret q = None ->
     Index.filterByNaturalLanguage store (Some q) =
       Error 400 "Unable to parse natural language query") /\
    (q <> [] -> Part000.interpret q = None ->
     Part000.filterByNaturalLanguage store (Some q) = Error 400 "Unable to parse query") /\
    (forall data count original f,
        Index.filterByNaturalLanguage store (Some q) = OkQuery data count original f ->
        f <> Filters.empty) /\
    (forall data count original f,
        Part000.filterByNaturalLanguage store (Some q) = OkQuery data count original f ->
        f <> Filters.empty) /\
    Index.interpret (lit "tell me a joke") = None /\
    Part000.interpret (lit "tell me a joke") = None /\
    Index.filterByNaturalLanguage store (Some (lit "tell me a joke")) =
      Error 400 "Unable to parse natural language query" /\
    Part000.filterByNaturalLanguage store (Some (lit "tell me a joke")) =
      Error 400 "Unable to parse query".
Proof.
  intros store q.
  split; [apply index_no_match_unparseable|].
  split; [apply part000_no_match_unparseable|].
  split; [apply index_interpret_nonempty|].
  split; [apply part000_interpret_nonempty|].
  split.
  { intros Hq H. unfold Index.filterByNaturalLanguage.
    destruct q; [contradiction|]. now rewrite H. }
  split.
  { intros Hq H. unfold Part000.filterByNaturalLanguage.
    destruct q; [contradiction|]. now rewrite H. }
  split.
  { intros data count original f. unfold Index.filterByNaturalLanguage.
    destruct q; [discriminate|].
    destruct (Index.interpret (a :: q)) as [g|] eqn:E; [|discriminate].
    intros [= _ _ _ <-]. now apply index_interpret_nonempty in E. }
  split.
  { intros data count original f. unfold Part000.filterByNaturalLanguage.
    destruct q; [discriminate|].
    destruct (Part000.interpret (a :: q)) as [g|] eqn:E; [|discriminate].
    intros [= _ _ _ <-]. now apply part000_interpret_nonempty in E. }
  repeat split; reflexivity.
Qed.

Lemma unparseable_is_distinct_witness :
  indexPatternMatches (lit "tell me a joke") = false /\
  part000PatternMatches (lit "tell me a joke") = false /\
  Index.interpret (lit "tell me a joke") = None /\
  Part000.interpret (lit "tell me a joke") = None.
Proof.
  destruct (unparseable_is_distinct [] (lit "tell me a joke")) as (HI & HP & _).
  split; [reflexivity|]. split; [reflexivity|].
  split; [apply HI | apply HP]; reflexivity.
Defined.

(** C8 (word count), on part_000.  [analyzeString] of part_000 splits at
    the two characters "+s", not at white space: "hello world", which has
    the two tokens "hello" and "world", gets [word_count] 1, where
    [countWords] of index.js gives 2; and "a+sb", one token, gets 2. *)
Theorem part000_word_count_ignores_white_space :
  forall sha256 : jsstring -> jsstring,
    tokens (lit "hello world") = [lit "hello"; lit "world"] /\
    Props.word_count (Part000.analyzeString sha256 (lit "hello world")) = 1 /\
    Props.word_count (Index.analyzeString sha256 (lit "hello world")) = 2 /\
    tokens (lit "a+sb") = [lit "a+sb"] /\
    Props.word_count (Part000.analyzeString sha256 (lit "a+sb")) = 2.
Proof. intros sha256. repeat split; reflexivity. Qed.

(* ================================================================== *)
(** ** Numerals and [parseInt] *)

(** A decimal digit is a word character and a digit of radix 10; it is no
    white space, no sign and no [x]. *)
Lemma digit_facts (c : ascii) :
  isDigit c = true ->
  isWhiteSpace c = false /\ isWordChar c = true /\ isRadixDigit 10 c = true /\
  (code c =? 45)%N = false /\ (code c =? 43)%N = false /\
  (code c =? 120)%N = false /\ (code c =? 88)%N = false.
Proof.
  destruct c as [[] [] [] [] [] [] [] []]; intros H;
    try discriminate H; vm_compute; repeat split; reflexivity.
Qed.

Lemma takeWhile_digits (ds : jsstring) :
  forallb isDigit ds = true -> takeWhile (isRadixDigit 10) ds = ds.
Proof.
  induction ds as [|d ds IH]; simpl; [reflexivity|].
  intros H. apply andb_true_iff in H as [Hd Hds].
  destruct (digit_facts d Hd) as (_ & _ & -> & _). now rewrite IH.
Qed.

Lemma parseDigits_digits (sign : Z) (ds : jsstring) :
  forallb isDigit ds = true -> ds <> [] ->
  parseDigits sign 10 ds = Num (sign * Z.of_N (numeralValue 10 ds)).
Proof.
  intros Hds Hne. unfold parseDigits. rewrite takeWhile_digits by assumption.
  destruct ds; [contradiction | reflexivity].
Qed.

(** [parseInt(ds, 10)] and [parseInt(ds)] on a numeral give its value. *)
Lemma parseInt10_digits (ds : jsstring) :
  forallb isDigit ds = true -> ds <> [] ->
  parseInt10 ds = Num (Z.of_N (numeralValue 10 ds)).
Proof.
  intros Hds Hne. destruct ds as [|d ds]; [contradiction|].
  pose proof Hds as Hall. simpl in Hds. apply andb_true_iff in Hds as [Hd _].
  destruct (digit_facts d Hd) as (Hws & _ & _ & Hm & Hp & _).
  unfold parseInt10. cbn [dropWhile]. rewrite Hws. unfold splitSign. rewrite Hm, Hp.
  rewrite parseDigits_digits by (assumption || discriminate).
  now rewrite Z.mul_1_l.
Qed.

Lemma parseInt_digits (ds : jsstring) :
  forallb isDigit ds = true -> ds <> [] ->
  parseInt ds = Num (Z.of_N (numeralValue 10 ds)).
Proof.
  intros Hds Hne. destruct ds as [|d ds]; [contradiction|].
  pose proof Hds as Hall. simpl in Hds. apply andb_true_iff in Hds as [Hd Hrest].
  destruct (digit_facts d Hd) as (Hws & _ & _ & Hm & Hp & _).
  unfold parseInt. cbn [dropWhile]. rewrite Hws. unfold splitSign. rewrite Hm, Hp.
  assert (E : parseDigits 1 10 (d :: ds) = Num (Z.of_N (numeralValue 10 (d :: ds)))).
  { rewrite parseDigits_digits by (assumption || discriminate). now rewrite Z.mul_1_l. }
  destruct ds as [|x ds]; [exact E|].
  simpl in Hrest. apply andb_true_iff in Hrest as [Hx _].
  destruct (digit_facts x Hx) as (_ & _ & _ & _ & _ & H120 & H88).
  rewrite H120, H88, andb_false_r. exact E.
Qed.




(* ================================================================== *)
(** ** The matcher on the patterns of the interpreter *)

Lemma matchLit_app (l bef t : jsstring) :
  matchLit l bef (l ++ t) = Some (rev l ++ bef, t).
Proof.
  revert bef; induction l as [|x l IH]; intros bef; simpl; [reflexivity|].
  rewrite Ascii.eqb_refl, IH. now rewrite <- app_assoc.
Qed.

Lemma matchLit_fails (l bef rst : jsstring) :
  startsWith rst l = false -> matchLit l bef rst = None.
Proof.
  revert bef rst; induction l as [|x l IH]; intros bef rst; simpl; [discriminate|].
  destruct rst as [|y rst]; [reflexivity|].
  destruct (Ascii.eqb x y); simpl; [apply IH | reflexivity].
Qed.

(** A pattern that begins with literal text matches only where the text
    stands; so does one that begins with [\b] and then literal text. *)
Lemma run_lit_fails (A : Type) (l : jsstring) (r : regex) (c : cursor)
      (k : cursor -> option A) :
  startsWith (rest c) l = false -> run (Seq (Lit l) r) c k = None.
Proof. intros H. simpl. now rewrite matchLit_fails. Qed.

Lemma run_boundary_lit_fails (A : Type) (l : jsstring) (r : regex) (c : cursor)
      (k : cursor -> option A) :
  startsWith (rest c) l = false -> run (Seq WordBoundary (Seq (Lit l) r)) c k = None.
Proof.
  intros H. cbn [run]. destruct (atBoundary c); [|reflexivity].
  now apply run_lit_fails.
Qed.

Lemma consumed_app (t bef r1 r2 : jsstring) (c1 c2 : option jsstring) :
  consumed (Cursor bef r1 c1) (Cursor (rev t ++ bef) r2 c2) = t.
Proof.
  unfold consumed. simpl. rewrite length_app, length_rev.
  replace (length t + length bef - length bef) with (length (rev t))
    by (rewrite length_rev; lia).
  rewrite firstn_app, firstn_all, Nat.sub_diag. simpl.
  now rewrite app_nil_r, rev_involutive.
Qed.


(** The leftmost match: no match before it, so the search returns it. *)
Lemma searchFrom_first (r : regex) (pre : jsstring) :
  forall (bef rst : jsstring) (c : cursor),
    (forall a b, pre = a ++ b -> b <> [] -> matchAt r (rev a ++ bef) (b ++ rst) = None) ->
    matchAt r (rev pre ++ bef) rst = Some c ->
    exists m, searchFrom r bef (pre ++ rst) = Some m /\
              group1 m = capture c /\ index m = length bef + length pre.
Proof.
  induction pre as [|x pre IH]; intros bef rst c Hnone Hat.
  - simpl in *. destruct rst as [|y rst]; simpl; rewrite Hat;
      eexists; (split; [reflexivity|]); simpl; split; auto.
  - cbn [app searchFrom].
    pose proof (Hnone [] (x :: pre) eq_refl) as H0. simpl in H0.
    rewrite H0 by discriminate.
    destruct (IH (x :: bef) rst c) as (m & Hm & Hg & Hi).
    + intros a b E Hb. specialize (Hnone (x :: a) b).
      simpl in Hnone. rewrite <- app_assoc in Hnone. apply Hnone; [now rewrite E | assumption].
    + simpl in Hat. now rewrite <- app_assoc in Hat.
    + exists m. split; [exact Hm|]. split; [exact Hg|]. simpl in Hi. simpl. lia.
Qed.

(** A match somewhere: the search finds a match. *)
Lemma searchFrom_some (r : regex) (pre : jsstring) :
  forall (bef rst : jsstring) (c : cursor),
    matchAt r (rev pre ++ bef) rst = Some c ->
    exists m, searchFrom r bef (pre ++ rst) = Some m.
Proof.
  induction pre as [|x pre IH]; intros bef rst c Hat.
  - simpl in *. destruct rst; simpl; rewrite Hat; eauto.
  - cbn [app searchFrom]. destruct (matchAt r bef (x :: pre ++ rst)); [eauto|].
    apply (IH (x :: bef) rst c). simpl in Hat. now rewrite <- app_assoc in Hat.
Qed.




Lemma run_seq (A : Type) (r1 r2 : regex) (c : cursor) (k : cursor -> option A) :
  run (Seq r1 r2) c k = run r1 c (fun c' => run r2 c' k).
Proof. reflexivity. Qed.

Lemma run_lit_app (A : Type) (l bef t : jsstring) (cap : option jsstring)
      (k : cursor -> option A) :
  run (Lit l) (Cursor bef (l ++ t) cap) k = k (Cursor (rev l ++ bef) t cap).
Proof. cbn [run before rest capture]. now rewrite matchLit_app. Qed.

Lemma run_boundary (A : Type) (c : cursor) (k : cursor -> option A) :
  atBoundary c = true -> run WordBoundary c k = k c.
Proof. intros H. cbn [run]. now rewrite H. Qed.




(** What the statements of the interpreter leave in [min_length] and in
    [contains_character]. *)
Lemma index_parseQuery_min_length (q : jsstring) :
  Filters.min_length (Index.parseQuery q) =
  Filters.min_length
    (Index.setMinLengthFrom (exec Index.reAtLeast (toLowerCase q)) 0
       (Index.setMinLengthFrom (exec Index.reLongerThan (toLowerCase q)) 1 Filters.empty)).
Proof.
  unfold Index.parseQuery, Index.setMinLengthFrom.
  destruct (test Index.reSingleWord (toLowerCase q)),
           (test Index.rePalindrome (toLowerCase q)),
           (exec Index.reLongerThan (toLowerCase q)) as [m1|],
           (exec Index.reAtLeast (toLowerCase q)) as [m2|],
           (test Index.reFirstVowel (toLowerCase q)),
           (exec Index.reContaining (toLowerCase q)) as [m3|];
    try destruct (isNaN (parseInt10 (Index.groupText m1)));
    try destruct (isNaN (parseInt10 (Index.groupText m2)));
    reflexivity.
Qed.

Lemma index_parseQuery_contains (q : jsstring) :
  Filters.contains_character (Index.parseQuery q) =
  match exec Index.reContaining (toLowerCase q) with
  | Some m => Some (Index.groupText m)
  | None => if test Index.reFirstVowel (toLowerCase q) then Some (lit "a") else None
  end.
Proof.
  unfold Index.parseQuery, Index.setMinLengthFrom.
  destruct (test Index.reSingleWord (toLowerCase q)),
           (test Index.rePalindrome (toLowerCase q)),
           (exec Index.reLongerThan (toLowerCase q)) as [m1|],
           (exec Index.reAtLeast (toLowerCase q)) as [m2|],
           (test Index.reFirstVowel (toLowerCase q)),
           (exec Index.reContaining (toLowerCase q)) as [m3|];
    try destruct (isNaN (parseInt10 (Index.groupText m1)));
    try destruct (isNaN (parseInt10 (Index.groupText m2)));
    reflexivity.
Qed.

Lemma part000_parseQuery_min_length (q : jsstring) :
  Filters.min_length (Part000.parseQuery q) =
  if includes (toLowerCase q) (lit "longer than") then
    match exec Part000.reLongerThan (toLowerCase q) with
    | Some m => Some (addNum (parseInt (Part000.groupText m)) 1)
    | None => None
    end
  else None.
Proof.
  unfold Part000.parseQuery.
  destruct (includes (toLowerCase q) (lit "palindromic")),
           (includes (toLowerCase q) (lit "single word")),
           (includes (toLowerCase q) (lit "longer than")),
           (exec Part000.reLongerThan (toLowerCase q)) as [m1|],
           (includes (toLowerCase q) (lit "containing the letter")),
           (exec Part000.reLetter (toLowerCase q)) as [m2|];
    reflexivity.
Qed.



(** Where the phrase "at least " does not occur, [/\bat least (\d+)\b/] does
    not match; likewise for "containing " and the pattern that begins
    with it. *)
Lemma searchFrom_lit_absent (l : jsstring) (r : regex) (rst : jsstring) :
  forall bef, includes rst l = false -> searchFrom (Seq (Lit l) r) bef rst = None.
Proof.
  unfold includes. induction rst as [|x rst IH]; intros bef H; simpl in H.
  - destruct (startsWith [] l) eqn:E; [discriminate|].
    cbn [searchFrom]. unfold matchAt. now rewrite run_lit_fails.
  - destruct (startsWith (x :: rst) l) eqn:E; [discriminate|].
    cbn [searchFrom]. unfold matchAt. rewrite run_lit_fails by exact E.
    apply IH. destruct (indexOf rst l); [discriminate | reflexivity].
Qed.

Lemma searchFrom_boundary_lit_absent (l : jsstring) (r : regex) (rst : jsstring) :
  forall bef, includes rst l = false ->
              searchFrom (Seq WordBoundary (Seq (Lit l) r)) bef rst = None.
Proof.
  unfold includes. induction rst as [|x rst IH]; intros bef H; simpl in H.
  - destruct (startsWith [] l) eqn:E; [discriminate|].
    cbn [searchFrom]. unfold matchAt. now rewrite run_boundary_lit_fails.
  - destruct (startsWith (x :: rst) l) eqn:E; [discriminate|].
    cbn [searchFrom]. unfold matchAt. rewrite run_boundary_lit_fails by exact E.
    apply IH. destruct (indexOf rst l); [discriminate | reflexivity].
Qed.

Lemma no_at_least_phrase (low : jsstring) :
  includes low (lit "at least ") = false -> test Index.reAtLeast low = false.
Proof.
  intros H. unfold test, exec, Index.reAtLeast.
  now rewrite searchFrom_boundary_lit_absent.
Qed.

Lemma no_containing_phrase (low : jsstring) :
  includes low (lit "containing ") = false -> test Index.reContaining low = false.
Proof.
  intros H. unfold test, exec, Index.reContaining.
  now rewrite searchFrom_lit_absent.
Qed.








(* ================================================================== *)
(** ** The analyzer: frequency map, distinct characters *)

Lemma freqOf_bump (c ch : ascii) (m : list (ascii * nat)) :
  freqOf c (bump ch m) = freqOf c m + (if Ascii.eqb ch c then 1 else 0).
Proof.
  induction m as [|[k n] m IH]; simpl.
  - destruct (Ascii.eqb ch c); reflexivity.
  - destruct (Ascii.eqb k ch) eqn:Ekch; simpl.
    + apply Ascii.eqb_eq in Ekch; subst k.
      destruct (Ascii.eqb ch c); lia.
    + destruct (Ascii.eqb k c) eqn:Ekc; [|exact IH].
      apply Ascii.eqb_eq in Ekc; subst k.
      destruct (Ascii.eqb ch c) eqn:E; [|lia].
      apply Ascii.eqb_eq in E; subst ch. now rewrite Ascii.eqb_refl in Ekch.
Qed.

Lemma keys_bump (ch : ascii) (m : list (ascii * nat)) :
  (In ch (map fst m) /\ map fst (bump ch m) = map fst m) \/
  (~ In ch (map fst m) /\ map fst (bump ch m) = map fst m ++ [ch]).
Proof.
  induction m as [|[k n] m IH]; simpl.
  - right. split; [tauto | reflexivity].
  - destruct (Ascii.eqb k ch) eqn:E; simpl.
    + apply Ascii.eqb_eq in E; subst. left. auto.
    + assert (k <> ch) by (intros ->; now rewrite Ascii.eqb_refl in E).
      destruct IH as [[Hin ->]|[Hnin ->]]; [left | right]; split; auto.
      intros [?|?]; contradiction.
Qed.

Lemma totalCount_bump (ch : ascii) (m : list (ascii * nat)) :
  totalCount (bump ch m) = S (totalCount m).
Proof.
  induction m as [|[k n] m IH]; simpl; [reflexivity|].
  destruct (Ascii.eqb k ch); simpl; [lia | rewrite IH; lia].
Qed.

Lemma positive_bump (ch : ascii) (m : list (ascii * nat)) :
  Forall (fun kv => 0 < snd kv) m -> Forall (fun kv => 0 < snd kv) (bump ch m).
Proof.
  induction 1 as [|[k n] m Hk Hm IH]; simpl.
  - repeat constructor.
  - destruct (Ascii.eqb k ch); constructor; simpl in *; auto; lia.
Qed.

Lemma NoDup_keys_bump (ch : ascii) (m : list (ascii * nat)) :
  NoDup (map fst m) -> NoDup (map fst (bump ch m)).
Proof.
  intros H. destruct (keys_bump ch m) as [[_ ->]|[Hnin ->]]; [assumption|].
  apply NoDup_app; [assumption | repeat constructor; tauto |].
  intros x Hx [<-|[]]. contradiction.
Qed.

(** The loop of [charFreqMap], from any map built so far. *)
Lemma freq_loop (s : jsstring) :
  forall m : list (ascii * nat),
    NoDup (map fst m) -> Forall (fun kv => 0 < snd kv) m ->
    let m' := fold_left (fun acc ch => bump ch acc) s m in
    NoDup (map fst m') /\ Forall (fun kv => 0 < snd kv) m' /\
    totalCount m' = totalCount m + length s /\
    (forall c, freqOf c m' = freqOf c m + count_occ ascii_dec s c) /\
    (forall c, In c (map fst m') <-> In c (map fst m) \/ In c s).
Proof.
  induction s as [|x s IH]; intros m Hnd Hpos; cbn [fold_left].
  - repeat split; auto; simpl; try lia; tauto.
  - destruct (IH (bump x m) (NoDup_keys_bump x m Hnd) (positive_bump x m Hpos))
      as (H1 & H2 & H3 & H4 & H5).
    split; [exact H1|]. split; [exact H2|]. split; [|split].
    + rewrite H3, totalCount_bump. simpl. lia.
    + intros c. rewrite H4, freqOf_bump. simpl.
      destruct (ascii_dec x c) as [->|Hne].
      * rewrite Ascii.eqb_refl. lia.
      * destruct (Ascii.eqb x c) eqn:E; [apply Ascii.eqb_eq in E; contradiction | lia].
    + intros c. rewrite H5. simpl.
      destruct (keys_bump x m) as [[Hin ->]|[Hnin ->]].
      * split; [intros [?|?]; auto | intros [?|[<-|?]]; auto].
      * rewrite in_app_iff. simpl. tauto.
Qed.

Lemma freqOf_In (m : list (ascii * nat)) (c : ascii) (n : nat) :
  NoDup (map fst m) -> (In (c, n) m <-> In c (map fst m) /\ freqOf c m = n).
Proof.
  induction m as [|[k j] m IH]; simpl; intros Hnd.
  - tauto.
  - inversion Hnd as [|? ? Hnin Hnd']; subst.
    destruct (Ascii.eqb k c) eqn:E.
    + apply Ascii.eqb_eq in E; subst k. split.
      * intros [[= <-]|Hin]; [auto|].
        exfalso. apply Hnin. apply in_map_iff. now exists (c, n).
      * intros [_ <-]. now left.
    + assert (k <> c) by (intros ->; now rewrite Ascii.eqb_refl in E).
      rewrite (IH Hnd'). split.
      * intros [[= ? ?]|[? ?]]; [contradiction | auto].
      * intros [[?|?] ?]; [contradiction | auto].
Qed.

Lemma charFreqMap_facts (s : jsstring) :
  NoDup (map fst (charFreqMap s)) /\
  Forall (fun kv => 0 < snd kv) (charFreqMap s) /\
  totalCount (charFreqMap s) = length s /\
  (forall c, freqOf c (charFreqMap s) = count_occ ascii_dec s c) /\
  (forall c, In c (map fst (charFreqMap s)) <-> In c s).
Proof.
  destruct (freq_loop s [] (NoDup_nil _) (Forall_nil _)) as (H1 & H2 & H3 & H4 & H5).
  split; [exact H1|]. split; [exact H2|]. split; [exact H3|].
  split; [exact H4|].
  intros c. unfold charFreqMap. rewrite H5. simpl. tauto.
Qed.

(** X1.  The frequency map of [analyzeString], in both servers, holds a
    character exactly when the string has it, holds it once, and counts
    its occurrences: the pair (c, n) is in the map if and only if [c]
    occurs [n] times in the string and [n] is not zero. *)
Theorem frequency_map_counts :
  forall (sha256 : jsstring -> jsstring) (s : jsstring) (c : ascii) (n : nat),
    Props.character_frequency_map (Index.analyzeString sha256 s) =
      Props.character_frequency_map (Part000.analyzeString sha256 s) /\
    NoDup (map fst (Props.character_frequency_map (Index.analyzeString sha256 s))) /\
    (In (c, n) (Props.character_frequency_map (Index.analyzeString sha256 s)) <->
     n = count_occ ascii_dec s c /\ 0 < n).
Proof.
  intros sha256 s c n. simpl.
  destruct (charFreqMap_facts s) as (Hnd & Hpos & _ & Hfreq & Hkeys).
  split; [reflexivity|]. split; [exact Hnd|].
  rewrite (freqOf_In _ c n Hnd), Hkeys, Hfreq, (count_occ_In ascii_dec). lia.
Qed.


(* ================================================================== *)
(** ** The analyzer: palindromes *)

(** Lower-casing is idempotent and neither makes nor unmakes white space. *)
Lemma lowerChar_facts (c : ascii) :
  lowerChar (lowerChar c) = lowerChar c /\
  isWhiteSpace (lowerChar c) = isWhiteSpace c /\
  isUpper (lowerChar c) = false.
Proof. destruct c as [[] [] [] [] [] [] [] []]; vm_compute; repeat split. Qed.












(* ================================================================== *)
(** ** The analyzer: words *)

Lemma tokensFrom_nil (s : jsstring) :
  forall piece, tokensFrom s piece = [] -> piece = [] /\ isBlank s = true.
Proof.
  unfold isBlank. induction s as [|c s IH]; intros piece; simpl.
  - destruct piece; [auto | discriminate].
  - destruct (isWhiteSpace c); simpl.
    + destruct piece; [|discriminate]. intros H. split; [reflexivity|].
      now apply (IH []).
    + intros H. apply IH in H as [H _]. discriminate H.
Qed.

Lemma tokens_blank (s : jsstring) : tokens s = [] <-> isBlank s = true.
Proof.
  unfold tokens. split.
  - intros H. now apply tokensFrom_nil in H.
  - unfold isBlank. induction s as [|c s IH]; simpl; [reflexivity|].
    destruct (isWhiteSpace c); simpl; [exact IH | discriminate].
Qed.

(** X5.  [countWords] of index.js: white space between two strings makes
    their counts add up; the count is zero exactly for the strings of white
    space only; a non-empty string without white space counts one; and
    trimming first changes nothing. *)
Theorem word_count_laws :
  forall (a b t : jsstring) (w : ascii),
    (isWhiteSpace w = true ->
     Index.countWords (a ++ w :: b) = Index.countWords a + Index.countWords b) /\
    (Index.countWords a = 0 <-> isBlank a = true) /\
    (t <> [] -> forallb (fun c => negb (isWhiteSpace c)) t = true ->
     Index.countWords t = 1) /\
    Index.countWords (trim a) = Index.countWords a.
Proof.
  intros a b t w.
  assert (Hc : forall s, Index.countWords s = length (tokens s))
    by (intros s; apply index_countWords_spec).
  repeat split.
  - intros Hw. rewrite !Hc, tokens_app_space by assumption. apply length_app.
  - rewrite Hc. intros H. apply tokens_blank. now destruct (tokens a).
  - rewrite Hc. intros H. apply tokens_blank in H. now rewrite H.
  - intros Hne Ht. rewrite Hc, tokens_word by assumption. reflexivity.
  - now rewrite !Hc, tokens_trim.
Qed.

Lemma word_count_laws_witness :
  isWhiteSpace " "%char = true /\
  Index.countWords (lit "hello" ++ " "%char :: lit "big world") =
    Index.countWords (lit "hello") + Index.countWords (lit "big world") /\
  Index.countWords (lit "hello") = 1.
Proof.
  destruct (word_count_laws (lit "hello") (lit "big world") (lit "hello") " "%char)
    as (Hadd & _ & Hone & _).
  split; [reflexivity|]. split; [exact (Hadd eq_refl)|].
  apply Hone; [discriminate | reflexivity].
Defined.

(** [split] at literal text that does not occur: the string in one piece. *)
Lemma splitFrom_lit_absent (l : jsstring) (rst : jsstring) :
  forall bef piece,
    includes rst l = false ->
    splitFrom (Lit l) bef rst piece 0 = [rev piece ++ rst].
Proof.
  unfold includes. induction rst as [|x rst IH]; intros bef piece H; simpl in H.
  - simpl. now rewrite app_nil_r.
  - destruct (startsWith (x :: rst) l) eqn:E; [discriminate|].
    cbn [splitFrom]. unfold matchAt. cbn [run before rest].
    rewrite matchLit_fails by exact E.
    rewrite IH by (destruct (indexOf rst l); [discriminate | reflexivity]).
    simpl. now rewrite <- app_assoc.
Qed.

Lemma split_lit_absent (l s : jsstring) :
  l <> [] -> includes s l = false -> split (Lit l) s = [s].
Proof.
  intros Hl H. destruct s as [|c s].
  - unfold split, matchAt. cbn [run before rest].
    destruct l; [contradiction | reflexivity].
  - unfold split. now rewrite splitFrom_lit_absent.
Qed.

Lemma dropWhile_suffix (p : ascii -> bool) (s : jsstring) :
  exists a, s = a ++ dropWhile p s.
Proof. exists (takeWhile p s). symmetry. apply takeWhile_dropWhile. Qed.

(** [trim] cuts a piece out of the string. *)
Lemma trim_substring (s : jsstring) : substringOf (trim s) s.
Proof.
  unfold trim, substringOf.
  destruct (dropWhile_suffix isWhiteSpace s) as [a Ha].
  destruct (dropWhile_suffix isWhiteSpace (rev (dropWhile isWhiteSpace s))) as [b Hb].
  exists a, (rev b).
  rewrite Ha at 1. f_equal.
  rewrite <- (rev_involutive (dropWhile isWhiteSpace s)) at 1.
  rewrite Hb at 1. now rewrite rev_app_distr.
Qed.

Lemma substringOf_trans (l t s : jsstring) :
  substringOf l t -> substringOf t s -> substringOf l s.
Proof.
  intros (a & b & ->) (c & d & ->).
  exists (c ++ a), (b ++ d). now rewrite <- !app_assoc.
Qed.

Lemma dropWhile_nil (p : ascii -> bool) (s : jsstring) :
  dropWhile p s = [] <-> forallb p s = true.
Proof.
  induction s as [|c s IH]; simpl; [tauto|].
  destruct (p c); simpl; [exact IH | split; discriminate].
Qed.

Lemma forallb_rev (p : ascii -> bool) (s : jsstring) : forallb p (rev s) = forallb p s.
Proof.
  induction s as [|c s IH]; simpl; [reflexivity|].
  rewrite forallb_app, IH. simpl. rewrite andb_true_r. apply andb_comm.
Qed.

Lemma trim_nil (s : jsstring) : trim s = [] <-> isBlank s = true.
Proof.
  unfold trim, isBlank. split.
  - intros H. apply (f_equal (@rev ascii)) in H. rewrite rev_involutive in H. simpl in H.
    apply dropWhile_nil in H. rewrite forallb_rev in H.
    apply dropWhile_nil.
    destruct (dropWhile isWhiteSpace s) as [|c t] eqn:E; [reflexivity|].
    pose proof (dropWhile_stops isWhiteSpace s) as Hs. rewrite E in Hs.
    simpl in Hs, H. destruct (isWhiteSpace c); discriminate.
  - intros H. apply dropWhile_nil in H. now rewrite H.
Qed.

(** X6.  [analyzeString] of part_000 on a string that nowhere has a plus
    sign followed by the letter s: [word_count] is 0 when the string is
    white space only and 1 otherwise, however many words it has. *)
Theorem part000_word_count_is_zero_or_one :
  forall (sha256 : jsstring -> jsstring) (str : jsstring),
    includes str (lit "+s") = false ->
    Props.word_count (Part000.analyzeString sha256 str) = if isBlank str then 0 else 1.
Proof.
  intros sha256 str H. simpl. unfold Part000.wordCount, Part000.rePlusS.
  assert (Ht : includes (trim str) (lit "+s") = false).
  { destruct (includes (trim str) (lit "+s")) eqn:E; [|reflexivity].
    apply includes_spec in E.
    pose proof (substringOf_trans _ _ _ E (trim_substring str)) as Hs.
    apply includes_spec in Hs. congruence. }
  rewrite split_lit_absent by (discriminate || assumption).
  simpl. destruct (isBlank str) eqn:Eb.
  - apply trim_nil in Eb. now rewrite Eb.
  - destruct (trim str) eqn:Et; [|reflexivity].
    apply trim_nil in Et. congruence.
Qed.

Lemma part000_word_count_is_zero_or_one_witness :
  includes (lit "the quick brown fox") (lit "+s") = false /\
  Props.word_count (Part000.analyzeString plainDigest (lit "the quick brown fox")) = 1.
Proof.
  split; [reflexivity|].
  exact (part000_word_count_is_zero_or_one plainDigest (lit "the quick brown fox") eq_refl).
Defined.

(* ================================================================== *)
(** ** The store under sequences of requests *)

Section MoreMapLaws.
Variable V : Type.
Implicit Types (m : JsMap.t V) (k : jsstring) (v : V).

Lemma get_set_other k k' v m :
  k <> k' -> JsMap.get k' (JsMap.set k v m) = JsMap.get k' m.
Proof.
  intros Hne. induction m as [|[k2 v2] m IH]; simpl.
  - assert (E : streqb k' k = false) by (apply streqb_neq; congruence). now rewrite E.
  - destruct (streqb k k2) eqn:E; simpl; [|now rewrite IH].
    apply streqb_eq in E; subst k2.
    assert (E' : streqb k' k = false) by (apply streqb_neq; congruence).
    now rewrite E'.
Qed.

Lemma get_delete_other k k' m :
  k <> k' -> JsMap.get k' (JsMap.delete k m) = JsMap.get k' m.
Proof.
  intros Hne. induction m as [|[k2 v2] m IH]; simpl; [reflexivity|].
  destruct (streqb k k2) eqn:E; simpl.
  - apply streqb_eq in E; subst k2.
    assert (E' : streqb k' k = false) by (apply streqb_neq; congruence).
    now rewrite E'.
  - now rewrite IH.
Qed.

Lemma delete_Forall (P : jsstring * V -> Prop) k m :
  Forall P m -> Forall P (JsMap.delete k m).
Proof.
  intros H. unfold JsMap.delete. rewrite Forall_forall in *.
  intros x Hx. apply filter_In in Hx as [Hx _]. auto.
Qed.
End MoreMapLaws.

Section Invariant.
Variable sha256 : jsstring -> jsstring.

Lemma storeOk_append (analyze : jsstring -> Props.t) (store : Store) (s now : jsstring) :
  Props.sha256_hash (analyze s) = sha256 s ->
  storeOk sha256 analyze store -> JsMap.has (sha256 s) store = false ->
  storeOk sha256 analyze (store ++ [(sha256 s, Entry (sha256 s) s (analyze s) now)]).
Proof.
  intros Hhash [Hnd Hall] Hfresh. split.
  - unfold JsMap.keys. rewrite map_app. simpl.
    apply NoDup_app; [assumption | repeat constructor; tauto |].
    intros k Hk [<-|[]]. now apply has_false_not_in in Hfresh.
  - apply Forall_app. split; [assumption|].
    constructor; [|constructor]. unfold recordOk. simpl. auto.
Qed.

Lemma storeOk_delete (analyze : jsstring -> Props.t) (store : Store) (k : jsstring) :
  storeOk sha256 analyze store -> storeOk sha256 analyze (JsMap.delete k store).
Proof.
  intros [Hnd Hall]. split; [now apply NoDup_keys_delete | now apply delete_Forall].
Qed.

Lemma index_handle_keeps (store : Store) (req : request) :
  storeOk sha256 (Index.analyzeString sha256) store ->
  storeOk sha256 (Index.analyzeString sha256) (snd (Index.handle sha256 store req)).
Proof.
  intros Hok. destruct req as [b now|raw|q|q|raw]; simpl; try assumption.
  - destruct (Index.postStrings sha256 store b now) as [resp store'] eqn:E.
    apply index_post_inv in E as [(s & _ & Hf & _ & ->)|(-> & _)]; simpl; [|assumption].
    now apply storeOk_append.
  - destruct (Index.deleteString sha256 store raw) as [resp store'] eqn:E.
    apply index_delete_inv in E as [(_ & _ & ->)|(_ & _ & ->)]; simpl; [|assumption].
    now apply storeOk_delete.
Qed.

Lemma part000_handle_keeps (store : Store) (req : request) :
  storeOk sha256 (Part000.analyzeString sha256) store ->
  storeOk sha256 (Part000.analyzeString sha256) (snd (Part000.handle sha256 store req)).
Proof.
  intros Hok. destruct req as [b now|raw|q|q|raw]; simpl; try assumption.
  - destruct (Part000.postStrings sha256 store b now) as [resp store'] eqn:E.
    apply part000_post_inv in E as [(s & _ & Hf & _ & ->)|(-> & _)]; simpl; [|assumption].
    now apply storeOk_append.
  - change (Part000.deleteString sha256 store raw)
      with (Index.deleteString sha256 store raw).
    destruct (Index.deleteString sha256 store raw) as [resp store'] eqn:E.
    apply index_delete_inv in E as [(_ & _ & ->)|(_ & _ & ->)]; simpl; [|assumption].
    now apply storeOk_delete.
Qed.

Lemma serveAll_keeps (analyze : jsstring -> Props.t)
      (handle : Store -> request -> response * Store) (reqs : list request) :
  (forall store req, storeOk sha256 analyze store ->
                     storeOk sha256 analyze (snd (handle store req))) ->
  forall store, storeOk sha256 analyze store ->
                storeOk sha256 analyze (serveAll handle reqs store).
Proof.
  intros Hstep. unfold serveAll.
  induction reqs as [|req reqs IH]; intros store Hok; simpl; [assumption|].
  apply IH. now apply Hstep.
Qed.

Lemma storeOk_empty (analyze : jsstring -> Props.t) :
  storeOk sha256 analyze (JsMap.empty entry).
Proof. split; constructor. Qed.
End Invariant.

Lemma stored_records_are_well_formed_aux (sha256 : jsstring -> jsstring)
      (reqs : list request) :
  storeOk sha256 (Index.analyzeString sha256)
          (serveAll (Index.handle sha256) reqs (JsMap.empty entry)).
Proof. apply serveAll_keeps; [apply index_handle_keeps | apply storeOk_empty]. Qed.

Lemma part000_stored_records_aux (sha256 : jsstring -> jsstring) (reqs : list request) :
  storeOk sha256 (Part000.analyzeString sha256)
          (serveAll (Part000.handle sha256) reqs (JsMap.empty entry)).
Proof. apply serveAll_keeps; [apply part000_handle_keeps | apply storeOk_empty]. Qed.

(** X7.  Whatever requests either server has served since it started with
    an empty store, in the store no two records share a key, and every
    record sits under its own [id], which is the digest of its [value] and
    is repeated as the digest inside its properties, and its properties
    are what [analyzeString] gives for its [value]. *)
Theorem stored_records_are_well_formed :
  forall (sha256 : jsstring -> jsstring) (reqs : list request),
    storeOk sha256 (Index.analyzeString sha256)
            (serveAll (Index.handle sha256) reqs (JsMap.empty entry)) /\
    storeOk sha256 (Part000.analyzeString sha256)
            (serveAll (Part000.handle sha256) reqs (JsMap.empty entry)).
Proof.
  intros sha256 reqs. split.
  - apply stored_records_are_well_formed_aux.
  - apply part000_stored_records_aux.
Qed.

(** X8.  A [GET /strings/s] that finds a record, in a store either server
    has built from the empty one, finds a record whose [id] is the digest of
    [s] and of the record's own [value]; so with a digest function that has
    no collisions the record's [value] is [s] itself. *)
Theorem lookup_returns_the_value_asked_for :
  forall (sha256 : jsstring -> jsstring) (reqs : list request) (s : jsstring) (e : entry),
    Index.getString sha256 (serveAll (Index.handle sha256) reqs (JsMap.empty entry)) s
      = Found e ->
    id e = sha256 s /\ sha256 (value e) = sha256 s /\
    ((forall a b, sha256 a = sha256 b -> a = b) -> value e = s).
Proof.
  intros sha256 reqs s e H.
  destruct (stored_records_are_well_formed_aux sha256 reqs) as [_ Hall].
  unfold Index.getString in H.
  destruct (JsMap.get (sha256 s) _) as [e'|] eqn:E; [|discriminate].
  injection H as ->.
  assert (Hin : In (sha256 s, e) (serveAll (Index.handle sha256) reqs (JsMap.empty entry))).
  { revert E. generalize (serveAll (Index.handle sha256) reqs (JsMap.empty entry)).
    intros m. induction m as [|[k v] m IH]; simpl; [discriminate|].
    destruct (streqb (sha256 s) k) eqn:Ek.
    - intros [= ->]. apply streqb_eq in Ek; subst. now left.
    - intros H. right. auto. }
  rewrite Forall_forall in Hall. destruct (Hall _ Hin) as (Hk & Hid & _).
  simpl in Hk, Hid. split; [now symmetry|].
  assert (Hd : sha256 (value e) = sha256 s) by (rewrite <- Hid; now symmetry).
  split; [exact Hd|].
  intros Hinj. now apply Hinj.
Qed.

Lemma lookup_returns_the_value_asked_for_witness :
  Index.getString plainDigest
    (serveAll (Index.handle plainDigest)
              [PostStrings (Body (Some (VString (lit "madam")))) exampleTime]
              (JsMap.empty entry))
    (lit "madam") = Found madamEntry /\
  id madamEntry = plainDigest (lit "madam") /\
  value madamEntry = lit "madam".
Proof.
  split; [reflexivity|].
  destruct (lookup_returns_the_value_asked_for plainDigest
              [PostStrings (Body (Some (VString (lit "madam")))) exampleTime]
              (lit "madam") madamEntry eq_refl) as (Hid & _ & Hval).
  split; [exact Hid|]. apply Hval. intros a b H. exact H.
Defined.

(** X9.  A [POST] or a [DELETE] of a string changes no lookup of a string
    with another digest: [GET /strings/s'] answers after it what it
    answered before.  This holds of both servers. *)
Theorem other_records_are_untouched :
  forall (sha256 : jsstring -> jsstring) (store : Store) (s s' now : jsstring),
    sha256 s <> sha256 s' ->
    Index.getString sha256
      (snd (Index.postStrings sha256 store (Body (Some (VString s))) now)) s'
      = Index.getString sha256 store s' /\
    Index.getString sha256 (snd (Index.deleteString sha256 store s)) s'
      = Index.getString sha256 store s' /\
    Part000.getString sha256
      (snd (Part000.postStrings sha256 store (Body (Some (VString s))) now)) s'
      = Part000.getString sha256 store s' /\
    Part000.getString sha256 (snd (Part000.deleteString sha256 store s)) s'
      = Part000.getString sha256 store s'.
Proof.
  intros sha256 store s s' now Hne.
  assert (Hdel : Index.getString sha256 (snd (Index.deleteString sha256 store s)) s'
                 = Index.getString sha256 store s').
  { unfold Index.deleteString, Index.getString.
    destruct (JsMap.has (sha256 s) store); simpl; [|reflexivity].
    now rewrite get_delete_other. }
  repeat split.
  - unfold Index.postStrings, Index.getString.
    destruct (JsMap.has (sha256 s) store); simpl; [reflexivity|].
    now rewrite get_set_other.
  - exact Hdel.
  - rewrite !part000_getString_eq. unfold Part000.postStrings, Index.getString. simpl.
    destruct (JsMap.has (sha256 s) store); simpl; [reflexivity|].
    now rewrite get_set_other.
  - rewrite !part000_getString_eq. exact Hdel.
Qed.

Lemma other_records_are_untouched_witness :
  plainDigest (lit "level") <> plainDigest (lit "madam") /\
  Index.getString plainDigest
    (snd (Index.deleteString plainDigest madamStore (lit "level"))) (lit "madam")
    = Index.getString plainDigest madamStore (lit "madam").
Proof.
  assert (H : plainDigest (lit "level") <> plainDigest (lit "madam")) by discriminate.
  split; [exact H|].
  destruct (other_records_are_untouched plainDigest madamStore (lit "level") (lit "madam")
              exampleTime H) as (_ & Hdel & _).
  exact Hdel.
Defined.

(** X10.  A string that was deleted can be posted again: after a [DELETE]
    that answered 204, a [POST] of the same string answers 201, the new
    record, with the new time stamp, goes to the end of the store, and
    [GET] finds it.  This holds of both servers. *)
Theorem deleted_strings_can_be_posted_again :
  forall (sha256 : jsstring -> jsstring) (store store1 : Store) (s now : jsstring),
    Index.deleteString sha256 store s = (NoContent, store1) ->
    Index.postStrings sha256 store1 (Body (Some (VString s))) now =
      (Created (indexEntry sha256 s now), store1 ++ [(sha256 s, indexEntry sha256 s now)]) /\
    Index.getString sha256 (store1 ++ [(sha256 s, indexEntry sha256 s now)]) s =
      Found (indexEntry sha256 s now) /\
    Part000.postStrings sha256 store1 (Body (Some (VString s))) now =
      (Created (part000Entry sha256 s now),
       store1 ++ [(sha256 s, part000Entry sha256 s now)]) /\
    Part000.getString sha256 (store1 ++ [(sha256 s, part000Entry sha256 s now)]) s =
      Found (part000Entry sha256 s now).
Proof.
  intros sha256 store store1 s now H.
  apply index_delete_inv in H as [(_ & _ & ->)|(E & _)]; [|discriminate].
  pose proof (has_delete_same _ (sha256 s) store) as Hfresh.
  assert (Hget : forall e, JsMap.get (sha256 s) (JsMap.delete (sha256 s) store ++ [(sha256 s, e)])
                           = Some e).
  { intros e. rewrite <- (set_fresh _ (sha256 s) e _ Hfresh). apply get_set_same. }
  repeat split.
  - now apply index_post_fresh.
  - unfold Index.getString. now rewrite Hget.
  - now apply part000_post_fresh.
  - rewrite part000_getString_eq. unfold Index.getString. now rewrite Hget.
Qed.

Lemma deleted_strings_can_be_posted_again_witness :
  Index.deleteString plainDigest madamStore (lit "madam") = (NoContent, []) /\
  Index.postStrings plainDigest [] (Body (Some (VString (lit "madam")))) (lit "later") =
    (Created (indexEntry plainDigest (lit "madam") (lit "later")),
     [] ++ [(plainDigest (lit "madam"), indexEntry plainDigest (lit "madam") (lit "later"))]).
Proof.
  split; [reflexivity|].
  exact (proj1 (deleted_strings_can_be_posted_again plainDigest madamStore []
                  (lit "madam") (lit "later") eq_refl)).
Defined.

(** X11.  Records are told apart by digest alone.  When two strings have
    the same digest and the first is stored, a [POST] of the second answers
    409 and stores nothing, a [GET] of the second returns the record of the
    first, and a [DELETE] of the second removes the record of the first.
    This holds of both servers. *)
Theorem colliding_strings_share_a_record :
  forall (sha256 : jsstring -> jsstring) (store : Store) (s s' now now' : jsstring),
    sha256 s = sha256 s' ->
    JsMap.has (sha256 s) store = false ->
    let storeI := snd (Index.postStrings sha256 store (Body (Some (VString s))) now) in
    let storeP := snd (Part000.postStrings sha256 store (Body (Some (VString s))) now) in
    (statusOf (fst (Index.postStrings sha256 storeI (Body (Some (VString s'))) now')) = 409 /\
     snd (Index.postStrings sha256 storeI (Body (Some (VString s'))) now') = storeI /\
     Index.getString sha256 storeI s' = Found (indexEntry sha256 s now) /\
     Index.deleteString sha256 storeI s' = (NoContent, store)) /\
    (statusOf (fst (Part000.postStrings sha256 storeP (Body (Some (VString s'))) now')) = 409 /\
     snd (Part000.postStrings sha256 storeP (Body (Some (VString s'))) now') = storeP /\
     Part000.getString sha256 storeP s' = Found (part000Entry sha256 s now) /\
     Part000.deleteString sha256 storeP s' = (NoContent, store)).
Proof.
  intros sha256 store s s' now now' Hcol Hfresh storeI storeP.
  assert (Hdel : forall e, JsMap.delete (sha256 s) (store ++ [(sha256 s, e)]) = store).
  { intros e. unfold JsMap.delete. rewrite filter_app. simpl.
    rewrite streqb_refl. simpl. rewrite app_nil_r.
    now apply delete_absent. }
  assert (Hhas : forall e, JsMap.has (sha256 s) (store ++ [(sha256 s, e)]) = true).
  { intros e. rewrite <- (set_fresh _ (sha256 s) e _ Hfresh). apply has_set_same. }
  assert (Hget : forall e, JsMap.get (sha256 s) (store ++ [(sha256 s, e)]) = Some e).
  { intros e. rewrite <- (set_fresh _ (sha256 s) e _ Hfresh). apply get_set_same. }
  split.
  - unfold storeI. rewrite (index_post_fresh sha256 store s now Hfresh). cbn [snd].
    rewrite (index_post_present sha256 _ s' now') by (rewrite <- Hcol; apply Hhas).
    repeat split.
    + unfold Index.getString. rewrite <- Hcol. now rewrite Hget.
    + unfold Index.deleteString. rewrite <- Hcol, Hhas. simpl. now rewrite Hdel.
  - unfold storeP. rewrite (part000_post_fresh sha256 store s now Hfresh). cbn [snd].
    rewrite (part000_post_present sha256 _ s' now') by (rewrite <- Hcol; apply Hhas).
    repeat split.
    + rewrite part000_getString_eq. unfold Index.getString. rewrite <- Hcol. now rewrite Hget.
    + unfold Part000.deleteString. rewrite <- Hcol, Hhas. simpl. now rewrite Hdel.
Qed.

Lemma colliding_strings_share_a_record_witness :
  constantDigest (lit "madam") = constantDigest (lit "level") /\
  JsMap.has (constantDigest (lit "madam")) (JsMap.empty entry) = false /\
  Index.getString constantDigest
    (snd (Index.postStrings constantDigest (JsMap.empty entry)
            (Body (Some (VString (lit "madam")))) exampleTime))
    (lit "level") = Found (indexEntry constantDigest (lit "madam") exampleTime).
Proof.
  split; [reflexivity|]. split; [reflexivity|].
  destruct (colliding_strings_share_a_record constantDigest (JsMap.empty entry)
              (lit "madam") (lit "level") exampleTime exampleTime eq_refl eq_refl)
    as ((_ & _ & Hget & _) & _).
  exact Hget.
Defined.

(* ================================================================== *)
(** ** Responses, route by route *)





(* ================================================================== *)
(** ** Integer parameters of the list *)




(** X15.  A min_length, max_length or word_count that [parseInt] cannot
    read as a number: [GET /strings] of index.js answers 400 with the
    message of that parameter; [GET /strings] of part_000 answers 200 with
    no record at all and echoes NaN, because no comparison with NaN
    holds. *)
Theorem unreadable_numbers :
  forall (store : Store) (s : jsstring),
    parseInt10 s = NaN -> parseInt s = NaN ->
    (Index.getStrings store (Query.Make None (Some s) None None None) =
       Error 400 "min_length must be an integer" /\
     Index.getStrings store (Query.Make None None (Some s) None None) =
       Error 400 "max_length must be an integer" /\
     Index.getStrings store (Query.Make None None None (Some s) None) =
       Error 400 "word_count must be an integer") /\
    (Part000.getStrings store (Query.Make None (Some s) None None None) =
       OkList [] 0 (Filters.Make None (Some NaN) None None None) /\
     Part000.getStrings store (Query.Make None None (Some s) None None) =
       OkList [] 0 (Filters.Make None None (Some NaN) None None) /\
     Part000.getStrings store (Query.Make None None None (Some s) None) =
       OkList [] 0 (Filters.Make None None None (Some NaN) None)).
Proof.
  intros store s H10 H.
  assert (Hnone : forall p : entry -> bool,
             (forall r, p r = false) -> filter p (JsMap.values store) = []).
  { intros p Hp. induction (JsMap.values store) as [|r l IH]; simpl; [reflexivity|].
    now rewrite Hp. }
  split.
  - unfold Index.getStrings, Index.listPipeline, andThen, Index.palindromeParam,
      Index.intParam, Index.containsParam. simpl. rewrite H10. simpl. auto.
  - unfold Part000.getStrings, Part000.listFilters. simpl. rewrite H. simpl.
    rewrite !Hnone by reflexivity. auto.
Qed.

Lemma unreadable_numbers_witness :
  parseInt10 (lit "ten") = NaN /\ parseInt (lit "ten") = NaN /\
  Index.getStrings madamStore (Query.Make None (Some (lit "ten")) None None None) =
    Error 400 "min_length must be an integer" /\
  Part000.getStrings madamStore (Query.Make None (Some (lit "ten")) None None None) =
    OkList [] 0 (Filters.Make None (Some NaN) None None None).
Proof.
  split; [reflexivity|]. split; [reflexivity|].
  destruct (unreadable_numbers madamStore (lit "ten") eq_refl eq_refl)
    as ((HI & _) & (HP & _)).
  split; [exact HI | exact HP].
Defined.

(* ================================================================== *)
(** ** part_000: the palindrome flag *)

Lemma filter_const (b : bool) (l : list entry) (p : entry -> bool) :
  Forall (fun r => p r = b) l -> filter p l = if b then l else [].
Proof.
  induction 1 as [|r l Hr Hl IH]; simpl; [now destruct b|].
  rewrite Hr, IH. now destruct b.
Qed.

(** X16.  [analyzeString] of part_000 reports [is_palindrome] true for
    every string.  So in any store part_000 has built from the empty one,
    [GET /strings] with is_palindrome=true returns every record, and with
    any other text for is_palindrome it returns none. *)
Theorem part000_palindrome_flag :
  forall (sha256 : jsstring -> jsstring) (reqs : list request) (s param : jsstring),
    Props.is_palindrome (Part000.analyzeString sha256 s) = true /\
    Part000.getStrings (serveAll (Part000.handle sha256) reqs (JsMap.empty entry))
                       (Query.Make (Some param) None None None None) =
      (if streqb param (lit "true")
       then OkList (JsMap.values (serveAll (Part000.handle sha256) reqs (JsMap.empty entry)))
                   (length (JsMap.values
                              (serveAll (Part000.handle sha256) reqs (JsMap.empty entry))))
                   (Filters.Make (Some true) None None None None)
       else OkList [] 0 (Filters.Make (Some false) None None None None)).
Proof.
  intros sha256 reqs s param.
  split; [apply part000_isPalindrome_always|].
  destruct (part000_stored_records_aux sha256 reqs) as [_ Hall].
  set (store := serveAll (Part000.handle sha256) reqs (JsMap.empty entry)) in *.
  assert (Hflag : forall b, Forall (fun r => byPalindrome b r = b) (JsMap.values store)).
  { intros b. unfold JsMap.values. apply Forall_map.
    eapply Forall_impl; [|exact Hall].
    intros [k e] (_ & _ & _ & Hp). simpl in *. unfold byPalindrome. rewrite Hp. simpl.
    rewrite part000_isPalindrome_always. now destruct b. }
  assert (E : Part000.getStrings store (Query.Make (Some param) None None None None) =
              OkList (filter (byPalindrome (streqb param (lit "true"))) (JsMap.values store))
                     (length (filter (byPalindrome (streqb param (lit "true")))
                                     (JsMap.values store)))
                     (Filters.Make (Some (streqb param (lit "true"))) None None None None))
    by reflexivity.
  rewrite E, (filter_const _ _ _ (Hflag (streqb param (lit "true")))).
  now destruct (streqb param (lit "true")).
Qed.

(* ================================================================== *)
(** ** The natural-language handler in general *)

Lemma index_parseQuery_fixed_fields (q : jsstring) :
  (Filters.is_palindrome (Index.parseQuery q) = None \/
   Filters.is_palindrome (Index.parseQuery q) = Some true) /\
  (Filters.word_count (Index.parseQuery q) = None \/
   Filters.word_count (Index.parseQuery q) = Some (Num 1)) /\
  Filters.max_length (Index.parseQuery q) = None.
Proof.
  unfold Index.parseQuery, Index.setMinLengthFrom.
  destruct (test Index.reSingleWord (toLowerCase q)),
           (test Index.rePalindrome (toLowerCase q)),
           (exec Index.reLongerThan (toLowerCase q)) as [m1|],
           (exec Index.reAtLeast (toLowerCase q)) as [m2|],
           (test Index.reFirstVowel (toLowerCase q)),
           (exec Index.reContaining (toLowerCase q)) as [m3|];
    try destruct (isNaN (parseInt10 (Index.groupText m1)));
    try destruct (isNaN (parseInt10 (Index.groupText m2)));
    simpl; auto.
Qed.

Lemma part000_parseQuery_fixed_fields (q : jsstring) :
  (Filters.is_palindrome (Part000.parseQuery q) = None \/
   Filters.is_palindrome (Part000.parseQuery q) = Some true) /\
  (Filters.word_count (Part000.parseQuery q) = None \/
   Filters.word_count (Part000.parseQuery q) = Some (Num 1)) /\
  Filters.max_length (Part000.parseQuery q) = None.
Proof.
  unfold Part000.parseQuery.
  destruct (includes (toLowerCase q) (lit "palindromic")),
           (includes (toLowerCase q) (lit "single word")),
           (includes (toLowerCase q) (lit "longer than")),
           (exec Part000.reLongerThan (toLowerCase q)) as [m1|],
           (includes (toLowerCase q) (lit "containing the letter")),
           (exec Part000.reLetter (toLowerCase q)) as [m2|];
    simpl; auto.
Qed.

Lemma filter_swap (p q : entry -> bool) (l : list entry) :
  filter p (filter q l) = filter q (filter p l).
Proof.
  rewrite !filter_filter. apply filter_ext. intros r. apply andb_comm.
Qed.

(** The filters of the natural-language handler, applied in its own order,
    keep the records that satisfy all of them. *)
Lemma index_applyParsed_satisfies (f : Filters.t) (records : list entry) :
  Filters.max_length f = None ->
  Index.applyParsed f records = filter (satisfies f) records.
Proof.
  intros Hmax. rewrite <- filterEach_satisfies.
  destruct f as [[b|] [n|] [m|] [w|] [c|]]; try discriminate Hmax;
    unfold Index.applyParsed, filterEach, predicates, filterIf; simpl;
    first [reflexivity | apply filter_swap | f_equal; apply filter_swap].
Qed.

Lemma part000_applyParsed_satisfies (f : Filters.t) (records : list entry) :
  Filters.max_length f = None ->
  Filters.is_palindrome f = None \/ Filters.is_palindrome f = Some true ->
  Part000.applyParsed f records = filter (satisfies f) records.
Proof.
  intros Hmax Hpal. rewrite <- index_applyParsed_satisfies by assumption.
  unfold Part000.applyParsed, Index.applyParsed.
  destruct Hpal as [->| ->]; [reflexivity|].
  unfold filterIf at 4 8. f_equal. f_equal. f_equal.
  apply filter_ext. intros r. unfold byPalindrome.
  now destruct (Props.is_palindrome (properties r)).
Qed.

(** X17.  Whenever the interpreter of either server reads a query, the
    natural-language handler returns exactly the stored records that
    satisfy every filter it derived, reports the query text and those
    filters, and never derives a max_length; and any [GET /strings] of
    index.js whose parameters are typed as the same filters returns the
    same records. *)
Theorem natural_language_handler_applies_its_filters :
  forall (store : Store) (q : jsstring) (f : Filters.t) (structured : Query.t),
    q <> [] ->
    (Index.interpret q = Some f ->
     Index.filterByNaturalLanguage store (Some q) =
       OkQuery (filter (satisfies f) (JsMap.values store))
               (length (filter (satisfies f) (JsMap.values store))) q f /\
     Filters.max_length f = None /\
     (accepted structured = true -> typedFilters structured = f ->
      Index.getStrings store structured =
        OkList (filter (satisfies f) (JsMap.values store))
               (length (filter (satisfies f) (JsMap.values store))) f)) /\
    (Part000.interpret q = Some f ->
     Part000.filterByNaturalLanguage store (Some q) =
       OkQuery (filter (satisfies f) (JsMap.values store))
               (length (filter (satisfies f) (JsMap.values store))) q f /\
     Filters.max_length f = None).
Proof.
  intros store q f structured Hq. split.
  - intros H. assert (Hf : f = Index.parseQuery q).
    { unfold Index.interpret in H.
      destruct (Filters.isEmpty (Index.parseQuery q)); congruence. }
    destruct (index_parseQuery_fixed_fields q) as (_ & _ & Hmax). rewrite <- Hf in Hmax.
    split; [|split; [exact Hmax|]].
    + unfold Index.filterByNaturalLanguage. destruct q; [contradiction|].
      rewrite H. now rewrite index_applyParsed_satisfies.
    + intros Hacc <-. now apply index_getStrings_accepted.
  - intros H. assert (Hf : f = Part000.parseQuery q).
    { unfold Part000.interpret in H.
      destruct (Filters.isEmpty (Part000.parseQuery q)); congruence. }
    destruct (part000_parseQuery_fixed_fields q) as (Hpal & _ & Hmax).
    rewrite <- Hf in Hmax, Hpal.
    split; [|exact Hmax].
    unfold Part000.filterByNaturalLanguage. destruct q; [contradiction|].
    rewrite H. now rewrite part000_applyParsed_satisfies.
Qed.

Lemma natural_language_handler_applies_its_filters_witness :
  nlText <> [] /\ Index.interpret nlText = Some nlFilters /\
  Index.filterByNaturalLanguage madamStore (Some nlText) =
    OkQuery (filter (satisfies nlFilters) (JsMap.values madamStore))
            (length (filter (satisfies nlFilters) (JsMap.values madamStore)))
            nlText nlFilters.
Proof.
  assert (Hne : nlText <> []) by discriminate.
  assert (Hi : Index.interpret nlText = Some nlFilters) by (vm_compute; reflexivity).
  split; [exact Hne|]. split; [exact Hi|].
  destruct (natural_language_handler_applies_its_filters madamStore nlText nlFilters
              nlQuery Hne) as (H & _).
  exact (proj1 (H Hi)).
Defined.

(* ================================================================== *)
(** ** What a match of the interpreter's patterns captures *)

Lemma star_sound (A : Type) (p : ascii -> bool) (rst : jsstring) :
  forall (bef : jsstring) (cap : option jsstring) (k : cursor -> option A) (a : A),
    star p bef rst cap k = Some a ->
    exists run post, rst = run ++ post /\ forallb p run = true /\
                     k (Cursor (rev run ++ bef) post cap) = Some a.
Proof.
  induction rst as [|x rst IH]; intros bef cap k a H; simpl in H.
  - now exists [], [].
  - destruct (p x) eqn:Ex; [|now exists [], (x :: rst)].
    destruct (star p (x :: bef) rst cap k) as [a'|] eqn:E.
    + injection H as ->. apply IH in E as (run & post & -> & Hrun & Hk).
      exists (x :: run), post. simpl. rewrite Ex, Hrun, <- app_assoc. auto.
    + now exists [], (x :: rst).
Qed.

Lemma run_group_plus_inv (A : Type) (p : ascii -> bool) (bef rst : jsstring)
      (cap : option jsstring) (k : cursor -> option A) (a : A) :
  run (Group (Plus p)) (Cursor bef rst cap) k = Some a ->
  exists ds post, rst = ds ++ post /\ ds <> [] /\ forallb p ds = true /\
                  k (Cursor (rev ds ++ bef) post (Some ds)) = Some a.
Proof.
  cbn [run rest before capture]. destruct rst as [|x rst]; [discriminate|].
  destruct (p x) eqn:Ex; [|discriminate].
  intros H. apply star_sound in H as (run & post & -> & Hrun & Hk).
  exists (x :: run), post. cbn [before rest] in Hk.
  change (rev run ++ x :: bef) with (rev run ++ [x] ++ bef) in Hk.
  rewrite app_assoc in Hk. change (rev run ++ [x]) with (rev (x :: run)) in Hk.
  rewrite consumed_app in Hk.
  split; [reflexivity|]. split; [discriminate|]. split; [|exact Hk].
  simpl. now rewrite Ex.
Qed.

Lemma run_group_class_inv (p : ascii -> bool) (bef rst : jsstring)
      (cap : option jsstring) (a : cursor) :
  run (Group (Class p)) (Cursor bef rst cap) (fun c => Some c) = Some a ->
  exists x r, rst = x :: r /\ p x = true /\ capture a = Some [x].
Proof.
  cbn [run rest before capture]. destruct rst as [|x r]; [discriminate|].
  destruct (p x) eqn:Ex; [|discriminate].
  intros [= <-]. exists x, r. split; [reflexivity|]. split; [assumption|].
  cbn [capture]. f_equal. apply (consumed_app [x]).
Qed.

Lemma matchLit_inv (l : jsstring) :
  forall bef rst b r, matchLit l bef rst = Some (b, r) -> rst = l ++ r /\ b = rev l ++ bef.
Proof.
  induction l as [|x l IH]; intros bef rst b r H; simpl in H.
  - injection H as <- <-. auto.
  - destruct rst as [|y rst]; [discriminate|].
    destruct (Ascii.eqb x y) eqn:E; [|discriminate].
    apply Ascii.eqb_eq in E; subst y.
    apply IH in H as [-> ->]. simpl. now rewrite <- app_assoc.
Qed.

Lemma run_lit_inv (A : Type) (l : jsstring) (c : cursor) (k : cursor -> option A) (a : A) :
  run (Lit l) c k = Some a ->
  exists r, rest c = l ++ r /\ k (Cursor (rev l ++ before c) r (capture c)) = Some a.
Proof.
  cbn [run]. destruct (matchLit l (before c) (rest c)) as [[b r]|] eqn:E; [|discriminate].
  apply matchLit_inv in E as [-> ->]. eauto.
Qed.

Lemma run_boundary_inv (A : Type) (c : cursor) (k : cursor -> option A) (a : A) :
  run WordBoundary c k = Some a -> atBoundary c = true /\ k c = Some a.
Proof. cbn [run]. destruct (atBoundary c); [auto | discriminate]. Qed.

Lemma run_opt (A : Type) (r : regex) (c : cursor) (k : cursor -> option A) :
  run (Opt r) c k = match run r c k with Some a => Some a | None => k c end.
Proof. reflexivity. Qed.

Lemma run_alt (A : Type) (r1 r2 : regex) (c : cursor) (k : cursor -> option A) :
  run (Alt r1 r2) c k = match run r1 c k with Some a => Some a | None => run r2 c k end.
Proof. reflexivity. Qed.

Lemma run_group (A : Type) (r : regex) (c : cursor) (k : cursor -> option A) :
  run (Group r) c k =
    run r c (fun c' => k (Cursor (before c') (rest c') (Some (consumed c c')))).
Proof. reflexivity. Qed.

Lemma searchFrom_inv (r : regex) (rst : jsstring) :
  forall (bef : jsstring) (m : matchResult),
    searchFrom r bef rst = Some m ->
    exists pre post c, rst = pre ++ post /\ matchAt r (rev pre ++ bef) post = Some c /\
                       group1 m = capture c.
Proof.
  induction rst as [|x rst IH]; intros bef m H; cbn [searchFrom] in H.
  - destruct (matchAt r bef []) as [c|] eqn:E; [|discriminate].
    injection H as <-. now exists [], [], c.
  - destruct (matchAt r bef (x :: rst)) as [c|] eqn:E.
    + injection H as <-. now exists [], (x :: rst), c.
    + apply IH in H as (pre & post & c & -> & Hm & Hg).
      exists (x :: pre), post, c. simpl. rewrite <- app_assoc. auto.
Qed.

(** A match of [/longer than (\d+)/] or [/\bat least (\d+)\b/] captures a
    numeral. *)
Lemma longer_than_captures (low : jsstring) (m : matchResult) :
  exec Index.reLongerThan low = Some m ->
  exists ds, group1 m = Some ds /\ ds <> [] /\ forallb isDigit ds = true.
Proof.
  intros H. apply searchFrom_inv in H as (pre & post & c & _ & Hm & ->).
  unfold matchAt, Index.reLongerThan in Hm. rewrite run_seq in Hm.
  apply run_lit_inv in Hm as (r & _ & Hm).
  apply run_group_plus_inv in Hm as (ds & post' & _ & Hne & Hds & [= <-]).
  now exists ds.
Qed.

Lemma at_least_captures (low : jsstring) (m : matchResult) :
  exec Index.reAtLeast low = Some m ->
  exists ds, group1 m = Some ds /\ ds <> [] /\ forallb isDigit ds = true.
Proof.
  intros H. apply searchFrom_inv in H as (pre & post & c & _ & Hm & ->).
  unfold matchAt, Index.reAtLeast in Hm. rewrite run_seq in Hm.
  apply run_boundary_inv in Hm as [_ Hm]. rewrite run_seq in Hm.
  apply run_lit_inv in Hm as (r & _ & Hm). rewrite run_seq in Hm.
  apply run_group_plus_inv in Hm as (ds & post' & _ & Hne & Hds & Hm).
  apply run_boundary_inv in Hm as [_ [= <-]].
  now exists ds.
Qed.

(** A match of [/containing (?:the letter )?([a-zA-Z0-9])/] captures one
    letter or digit of the text; a match of [/letter (\w)/] one word
    character of it. *)
Lemma containing_captures (low : jsstring) (m : matchResult) :
  exec Index.reContaining low = Some m ->
  exists x, group1 m = Some [x] /\ isAlnum x = true /\ In x low.
Proof.
  intros H. apply searchFrom_inv in H as (pre & post & c & -> & Hm & ->).
  unfold matchAt, Index.reContaining in Hm. rewrite run_seq in Hm.
  apply run_lit_inv in Hm as (r & Hr & Hm). cbn [rest before capture] in Hr, Hm. subst post.
  rewrite run_seq, run_opt in Hm.
  match type of Hm with
  | match ?lhs with Some _ => _ | None => _ end = _ => destruct lhs as [a|] eqn:E
  end.
  - injection Hm as ->.
    apply run_lit_inv in E as (r2 & Hr2 & E). cbn [rest before capture] in Hr2, E. subst r.
    apply run_group_class_inv in E as (x & r3 & -> & Hx & Hc).
    exists x. split; [exact Hc|]. split; [exact Hx|].
    rewrite !in_app_iff. right. right. right. now left.
  - clear E. apply run_group_class_inv in Hm as (x & r3 & -> & Hx & Hc).
    exists x. split; [exact Hc|]. split; [exact Hx|].
    rewrite !in_app_iff. right. right. now left.
Qed.

Lemma letter_captures (low : jsstring) (m : matchResult) :
  exec Part000.reLetter low = Some m ->
  exists x, group1 m = Some [x] /\ isWordChar x = true /\ In x low.
Proof.
  intros H. apply searchFrom_inv in H as (pre & post & c & -> & Hm & ->).
  unfold matchAt, Part000.reLetter in Hm. rewrite run_seq in Hm.
  apply run_lit_inv in Hm as (r & Hr & Hm). cbn [rest before capture] in Hr, Hm. subst post.
  apply run_group_class_inv in Hm as (x & r3 & -> & Hx & Hc).
  exists x. split; [exact Hc|]. split; [exact Hx|].
  rewrite !in_app_iff. right. right. now left.
Qed.

Lemma lowered_not_upper (q : jsstring) (x : ascii) :
  In x (toLowerCase q) -> isUpper x = false.
Proof.
  unfold toLowerCase. intros H. apply in_map_iff in H as (y & <- & _).
  apply lowerChar_facts.
Qed.

Lemma part000_parseQuery_contains (q : jsstring) :
  Filters.contains_character (Part000.parseQuery q) =
  if includes (toLowerCase q) (lit "containing the letter") then
    match exec Part000.reLetter (toLowerCase q) with
    | Some m => Some (Part000.groupText m)
    | None => None
    end
  else None.
Proof.
  unfold Part000.parseQuery.
  destruct (includes (toLowerCase q) (lit "palindromic")),
           (includes (toLowerCase q) (lit "single word")),
           (includes (toLowerCase q) (lit "longer than")),
           (exec Part000.reLongerThan (toLowerCase q)) as [m1|],
           (includes (toLowerCase q) (lit "containing the letter")),
           (exec Part000.reLetter (toLowerCase q)) as [m2|];
    reflexivity.
Qed.

Lemma index_min_length_shape (q : jsstring) (n : number) :
  Filters.min_length (Index.parseQuery q) = Some n -> exists z, n = Num z /\ (0 <= z)%Z.
Proof.
  rewrite index_parseQuery_min_length. unfold Index.setMinLengthFrom, Index.groupText.
  destruct (exec Index.reAtLeast (toLowerCase q)) as [m2|] eqn:E2.
  - apply at_least_captures in E2 as (ds & -> & Hne & Hds).
    rewrite parseInt10_digits by assumption. simpl.
    intros [= <-]. eexists. split; [reflexivity | lia].
  - destruct (exec Index.reLongerThan (toLowerCase q)) as [m1|] eqn:E1; [|discriminate].
    apply longer_than_captures in E1 as (ds & -> & Hne & Hds).
    rewrite parseInt10_digits by assumption. simpl.
    intros [= <-]. eexists. split; [reflexivity | lia].
Qed.

Lemma part000_min_length_shape (q : jsstring) (n : number) :
  Filters.min_length (Part000.parseQuery q) = Some n -> exists z, n = Num z /\ (1 <= z)%Z.
Proof.
  rewrite part000_parseQuery_min_length. unfold Part000.groupText.
  destruct (includes (toLowerCase q) (lit "longer than")); [|discriminate].
  change Part000.reLongerThan with Index.reLongerThan.
  destruct (exec Index.reLongerThan (toLowerCase q)) as [m1|] eqn:E1; [|discriminate].
  apply longer_than_captures in E1 as (ds & -> & Hne & Hds).
  rewrite parseInt_digits by assumption. simpl.
  intros [= <-]. eexists. split; [reflexivity | lia].
Qed.

(** X18.  The filter object the interpreter builds, for every query.  In
    both servers is_palindrome is absent or true, word_count is absent or
    1, max_length is always absent, and min_length, when present, is a
    number and never NaN: at least 0 in index.js, at least 1 in part_000.
    contains_character, when present, is a single character, and never an
    upper-case one: a lower-case letter or a digit in index.js, one of
    those or an underscore in part_000. *)
Theorem interpreted_filters_have_a_fixed_shape :
  forall q : jsstring,
    ((Filters.is_palindrome (Index.parseQuery q) = None \/
      Filters.is_palindrome (Index.parseQuery q) = Some true) /\
     (Filters.word_count (Index.parseQuery q) = None \/
      Filters.word_count (Index.parseQuery q) = Some (Num 1)) /\
     Filters.max_length (Index.parseQuery q) = None /\
     (forall n, Filters.min_length (Index.parseQuery q) = Some n ->
                exists z, n = Num z /\ (0 <= z)%Z) /\
     (forall ch, Filters.contains_character (Index.parseQuery q) = Some ch ->
                 exists x, ch = [x] /\ (isLower x = true \/ isDigit x = true))) /\
    ((Filters.is_palindrome (Part000.parseQuery q) = None \/
      Filters.is_palindrome (Part000.parseQuery q) = Some true) /\
     (Filters.word_count (Part000.parseQuery q) = None \/
      Filters.word_count (Part000.parseQuery q) = Some (Num 1)) /\
     Filters.max_length (Part000.parseQuery q) = None /\
     (forall n, Filters.min_length (Part000.parseQuery q) = Some n ->
                exists z, n = Num z /\ (1 <= z)%Z) /\
     (forall ch, Filters.contains_character (Part000.parseQuery q) = Some ch ->
                 exists x, ch = [x] /\
                           (isLower x = true \/ isDigit x = true \/ x = "_"%char))).
Proof.
  intros q. split.
  - destruct (index_parseQuery_fixed_fields q) as (Hp & Hw & Hm).
    split; [exact Hp|]. split; [exact Hw|]. split; [exact Hm|].
    split; [apply index_min_length_shape|].
    intros ch. rewrite index_parseQuery_contains. unfold Index.groupText.
    destruct (exec Index.reContaining (toLowerCase q)) as [m|] eqn:E.
    + apply containing_captures in E as (x & -> & Hx & Hin).
      intros [= <-]. exists x. split; [reflexivity|].
      apply lowered_not_upper in Hin. unfold isAlnum in Hx. rewrite Hin in Hx.
      destruct (isLower x); [now left | now right].
    + destruct (test Index.reFirstVowel (toLowerCase q)); [|discriminate].
      intros [= <-]. exists "a"%char. split; [reflexivity | now left].
  - destruct (part000_parseQuery_fixed_fields q) as (Hp & Hw & Hm).
    split; [exact Hp|]. split; [exact Hw|]. split; [exact Hm|].
    split; [apply part000_min_length_shape|].
    intros ch. rewrite part000_parseQuery_contains. unfold Part000.groupText.
    destruct (includes (toLowerCase q) (lit "containing the letter")); [|discriminate].
    destruct (exec Part000.reLetter (toLowerCase q)) as [m|] eqn:E; [|discriminate].
    apply letter_captures in E as (x & -> & Hx & Hin).
    intros [= <-]. exists x. split; [reflexivity|].
    apply lowered_not_upper in Hin. unfold isWordChar, isAlnum in Hx. rewrite Hin in Hx.
    destruct (isLower x); [now left|]. destruct (isDigit x); [now right; left|].
    right. right. simpl in Hx. apply N.eqb_eq in Hx.
    unfold code in Hx. rewrite <- (ascii_N_embedding x), Hx. reflexivity.
Qed.

(* ================================================================== *)
(** ** The remaining rules of the interpreter *)

Lemma atBoundary_before (pre rst : jsstring) (cap : option jsstring) :
  endsInWordChar pre = false -> startsWithWordChar rst = true ->
  atBoundary (Cursor (rev pre ++ []) rst cap) = true.
Proof.
  intros Hpre Hrst. unfold atBoundary, wordBefore, wordAfter. cbn [before rest].
  rewrite app_nil_r. unfold endsInWordChar in Hpre. unfold startsWithWordChar in Hrst.
  now rewrite Hpre, Hrst.
Qed.

Lemma atBoundary_after (l bef post : jsstring) (cap : option jsstring) :
  endsInWordChar l = true -> startsWithWordChar post = false ->
  atBoundary (Cursor (rev l ++ bef) post cap) = true.
Proof.
  intros Hl Hpost. unfold atBoundary, wordBefore, wordAfter. cbn [before rest].
  unfold endsInWordChar in Hl. unfold startsWithWordChar in Hpost.
  destruct (rev l) as [|c t]; [discriminate|]. simpl. now rewrite Hl, Hpost.
Qed.

Lemma startsWithWordChar_app (l post : jsstring) :
  startsWithWordChar l = true -> startsWithWordChar (l ++ post) = true.
Proof. destruct l; [discriminate | trivial]. Qed.

(** [\b l \b] matches where [l] stands as whole words. *)
Lemma whole_word_run (l pre post : jsstring) (cap : option jsstring) :
  startsWithWordChar l = true -> endsInWordChar l = true ->
  endsInWordChar pre = false -> startsWithWordChar post = false ->
  run (Seq WordBoundary (Seq (Lit l) WordBoundary))
      (Cursor (rev pre ++ []) (l ++ post) cap) (fun c => Some c) =
    Some (Cursor (rev l ++ rev pre ++ []) post cap).
Proof.
  intros Hl1 Hl2 Hpre Hpost.
  rewrite run_seq, run_boundary
    by (apply atBoundary_before; [assumption | now apply startsWithWordChar_app]).
  rewrite run_seq, run_lit_app, run_boundary by now apply atBoundary_after.
  reflexivity.
Qed.

Lemma test_of_match (r : regex) (low pre rst : jsstring) (c : cursor) :
  low = pre ++ rst -> matchAt r (rev pre ++ []) rst = Some c -> test r low = true.
Proof.
  intros -> H. unfold test, exec.
  now destruct (searchFrom_some r pre [] rst c H) as (m & ->).
Qed.

Lemma test_palindrome_word (low pre w post : jsstring) :
  low = pre ++ w ++ post ->
  w = lit "palindromic" \/ w = lit "palindrome" ->
  endsInWordChar pre = false -> startsWithWordChar post = false ->
  test Index.rePalindrome low = true.
Proof.
  intros Hlow Hw Hpre Hpost.
  assert (H : exists c, matchAt Index.rePalindrome (rev pre ++ []) (w ++ post) = Some c).
  { unfold matchAt, Index.rePalindrome. rewrite run_alt.
    destruct Hw as [-> | ->].
    - rewrite whole_word_run by (assumption || reflexivity). eauto.
    - match goal with
      | |- exists c, match ?lhs with Some _ => _ | None => _ end = _ =>
          destruct lhs as [a|]; [eauto|]
      end.
      rewrite whole_word_run by (assumption || reflexivity). eauto. }
  destruct H as [c H]. exact (test_of_match _ _ _ _ _ Hlow H).
Qed.

Lemma test_single_word (low pre w post : jsstring) :
  low = pre ++ w ++ post ->
  w = lit "single word" \/ w = lit "single-word" \/ w = lit "one word" ->
  endsInWordChar pre = false -> startsWithWordChar post = false ->
  test Index.reSingleWord low = true.
Proof.
  intros Hlow Hw Hpre Hpost.
  assert (H : exists c, matchAt Index.reSingleWord (rev pre ++ []) (w ++ post) = Some c).
  { unfold matchAt, Index.reSingleWord.
    rewrite run_seq, run_boundary
      by (apply atBoundary_before; [assumption|];
          destruct Hw as [-> |[-> | ->]]; reflexivity).
    rewrite run_seq, run_group, run_alt.
    destruct Hw as [-> |[-> | ->]].
    - rewrite run_lit_app, run_boundary by now apply atBoundary_after. eauto.
    - match goal with
      | |- exists c, match ?lhs with Some _ => _ | None => _ end = _ =>
          destruct lhs as [a|]; [eauto|]
      end.
      rewrite run_alt, run_lit_app, run_boundary by now apply atBoundary_after. eauto.
    - match goal with
      | |- exists c, match ?lhs with Some _ => _ | None => _ end = _ =>
          destruct lhs as [a|]; [eauto|]
      end.
      rewrite run_alt.
      match goal with
      | |- exists c, match ?lhs with Some _ => _ | None => _ end = _ =>
          destruct lhs as [a|]; [eauto|]
      end.
      rewrite run_lit_app, run_boundary by now apply atBoundary_after. eauto. }
  destruct H as [c H]. exact (test_of_match _ _ _ _ _ Hlow H).
Qed.

Lemma index_parseQuery_flags (q : jsstring) :
  Filters.is_palindrome (Index.parseQuery q) =
    (if test Index.rePalindrome (toLowerCase q) then Some true else None) /\
  Filters.word_count (Index.parseQuery q) =
    (if test Index.reSingleWord (toLowerCase q) then Some (Num 1) else None).
Proof.
  unfold Index.parseQuery, Index.setMinLengthFrom.
  destruct (test Index.reSingleWord (toLowerCase q)),
           (test Index.rePalindrome (toLowerCase q)),
           (exec Index.reLongerThan (toLowerCase q)) as [m1|],
           (exec Index.reAtLeast (toLowerCase q)) as [m2|],
           (test Index.reFirstVowel (toLowerCase q)),
           (exec Index.reContaining (toLowerCase q)) as [m3|];
    try destruct (isNaN (parseInt10 (Index.groupText m1)));
    try destruct (isNaN (parseInt10 (Index.groupText m2)));
    split; reflexivity.
Qed.

Lemma part000_parseQuery_flags (q : jsstring) :
  Filters.is_palindrome (Part000.parseQuery q) =
    (if includes (toLowerCase q) (lit "palindromic") then Some true else None) /\
  Filters.word_count (Part000.parseQuery q) =
    (if includes (toLowerCase q) (lit "single word") then Some (Num 1) else None).
Proof.
  unfold Part000.parseQuery.
  destruct (includes (toLowerCase q) (lit "palindromic")),
           (includes (toLowerCase q) (lit "single word")),
           (includes (toLowerCase q) (lit "longer than")),
           (exec Part000.reLongerThan (toLowerCase q)) as [m1|],
           (includes (toLowerCase q) (lit "containing the letter")),
           (exec Part000.reLetter (toLowerCase q)) as [m2|];
    split; reflexivity.
Qed.

(** X19.  The rules for palindromes and single words, for every query,
    matched against its lower-cased text.  index.js sets is_palindrome to
    true where "palindromic" or "palindrome" stands as a whole word, and
    word_count to 1 where "single word", "single-word" or "one word" stands
    as whole words.  part_000 sets is_palindrome to true exactly when the
    text contains "palindromic" anywhere, and word_count to 1 exactly when
    it contains "single word" anywhere. *)
Theorem palindrome_and_single_word_rules :
  forall (q pre w post : jsstring),
    (toLowerCase q = pre ++ w ++ post ->
     endsInWordChar pre = false -> startsWithWordChar post = false ->
     (w = lit "palindromic" \/ w = lit "palindrome" ->
      Filters.is_palindrome (Index.parseQuery q) = Some true) /\
     (w = lit "single word" \/ w = lit "single-word" \/ w = lit "one word" ->
      Filters.word_count (Index.parseQuery q) = Some (Num 1))) /\
    (Filters.is_palindrome (Part000.parseQuery q) = Some true <->
     substringOf (lit "palindromic") (toLowerCase q)) /\
    (Filters.word_count (Part000.parseQuery q) = Some (Num 1) <->
     substringOf (lit "single word") (toLowerCase q)).
Proof.
  intros q pre w post.
  destruct (index_parseQuery_flags q) as [HIp HIw].
  destruct (part000_parseQuery_flags q) as [HPp HPw].
  split; [|split].
  - intros Hlow Hpre Hpost. split; intros Hw.
    + now rewrite HIp, (test_palindrome_word _ _ _ _ Hlow Hw Hpre Hpost).
    + now rewrite HIw, (test_single_word _ _ _ _ Hlow Hw Hpre Hpost).
  - rewrite HPp, <- includes_spec.
    destruct (includes (toLowerCase q) (lit "palindromic")); split; congruence.
  - rewrite HPw, <- includes_spec.
    destruct (includes (toLowerCase q) (lit "single word")); split; congruence.
Qed.

Lemma palindrome_and_single_word_rules_witness :
  Filters.is_palindrome (Index.parseQuery (lit "Every PALINDROME of one word, please"))
    = Some true /\
  Filters.word_count (Index.parseQuery (lit "Every PALINDROME of one word, please"))
    = Some (Num 1).
Proof.
  split.
  - destruct (palindrome_and_single_word_rules
                (lit "Every PALINDROME of one word, please") (lit "every ")
                (lit "palindrome") (lit " of one word, please")) as (H & _).
    destruct (H eq_refl eq_refl eq_refl) as (Hp & _). apply Hp. now right.
  - destruct (palindrome_and_single_word_rules
                (lit "Every PALINDROME of one word, please") (lit "every palindrome of ")
                (lit "one word") (lit ", please")) as (H & _).
    destruct (H eq_refl eq_refl eq_refl) as (_ & Hw). apply Hw. now right; right.
Defined.

Lemma run_group_class (p : ascii -> bool) (bef r : jsstring) (x : ascii)
      (cap : option jsstring) :
  p x = true ->
  run (Group (Class p)) (Cursor bef (x :: r) cap) (fun c => Some c) =
    Some (Cursor (x :: bef) r (Some [x])).
Proof.
  intros Hx. cbn [run rest before capture]. rewrite Hx.
  f_equal. f_equal. f_equal. apply (consumed_app [x]).
Qed.

Lemma exec_first (r : regex) (low pre rst lead : jsstring) (c : cursor) :
  low = pre ++ rst ->
  indexOf low lead = Some (length pre) ->
  (forall bef t, startsWith t lead = false -> matchAt r bef t = None) ->
  matchAt r (rev pre ++ []) rst = Some c ->
  exists m, exec r low = Some m /\ group1 m = capture c.
Proof.
  intros -> Hfirst Hlead Hat. unfold exec.
  destruct (searchFrom_first r pre [] rst c) as (m & Hm & Hg & _).
  - intros a b E Hb. apply Hlead. now apply (indexOf_first pre _ _ Hfirst a b).
  - exact Hat.
  - eauto.
Qed.

(** [/containing (?:the letter )?([a-zA-Z0-9])/] at the first "containing ":
    with "the letter " and a letter or digit after it, and with a letter or
    digit directly after it. *)
Lemma exec_containing_the_letter (low pre post : jsstring) (x : ascii) :
  low = pre ++ lit "containing " ++ lit "the letter " ++ x :: post ->
  indexOf low (lit "containing ") = Some (length pre) ->
  isAlnum x = true ->
  exists m, exec Index.reContaining low = Some m /\ group1 m = Some [x].
Proof.
  intros Hlow Hfirst Hx.
  eapply (exec_first Index.reContaining low pre _ (lit "containing ")
            (Cursor _ post (Some [x])) Hlow Hfirst).
  - intros bef t Ht. unfold matchAt, Index.reContaining. now apply run_lit_fails.
  - unfold matchAt, Index.reContaining.
    rewrite run_seq, run_lit_app, run_seq, run_opt, run_lit_app.
    now rewrite run_group_class.
Qed.

Lemma exec_containing_directly (low pre post : jsstring) (x : ascii) :
  low = pre ++ lit "containing " ++ x :: post ->
  indexOf low (lit "containing ") = Some (length pre) ->
  isAlnum x = true ->
  startsWith (x :: post) (lit "the letter ") = false ->
  exists m, exec Index.reContaining low = Some m /\ group1 m = Some [x].
Proof.
  intros Hlow Hfirst Hx Hno.
  eapply (exec_first Index.reContaining low pre _ (lit "containing ")
            (Cursor _ post (Some [x])) Hlow Hfirst).
  - intros bef t Ht. unfold matchAt, Index.reContaining. now apply run_lit_fails.
  - unfold matchAt, Index.reContaining.
    rewrite run_seq, run_lit_app, run_seq, run_opt.
    assert (E : forall k : cursor -> option cursor,
               run (Lit (lit "the letter "))
                   (Cursor (rev (lit "containing ") ++ rev pre ++ []) (x :: post) None) k
               = None).
    { intros k. cbn [run before rest]. now rewrite matchLit_fails. }
    rewrite E. now rewrite run_group_class.
Qed.

Lemma exec_letter (low pre post : jsstring) (x : ascii) :
  low = pre ++ lit "letter " ++ x :: post ->
  indexOf low (lit "letter ") = Some (length pre) ->
  isWordChar x = true ->
  exists m, exec Part000.reLetter low = Some m /\ group1 m = Some [x].
Proof.
  intros Hlow Hfirst Hx.
  eapply (exec_first Part000.reLetter low pre _ (lit "letter ")
            (Cursor _ post (Some [x])) Hlow Hfirst).
  - intros bef t Ht. unfold matchAt, Part000.reLetter. now apply run_lit_fails.
  - unfold matchAt, Part000.reLetter.
    rewrite run_seq, run_lit_app. now rewrite run_group_class.
Qed.

(** X20.  The rule for "containing", for every query, matched against its
    lower-cased text.  index.js looks at the first "containing ": when
    "the letter " and then a letter or digit follow, contains_character is
    that letter or digit; when a letter or digit follows directly, and not
    the words "the letter ", contains_character is that character, be it
    the first letter of an ordinary word, and whatever "first vowel" gave.
    part_000 needs "containing the letter" somewhere in the text, and then
    takes the word character after the first "letter ". *)
Theorem containing_rule :
  forall (q pre post : jsstring) (x : ascii),
    (toLowerCase q = pre ++ lit "containing " ++ lit "the letter " ++ x :: post ->
     indexOf (toLowerCase q) (lit "containing ") = Some (length pre) ->
     isAlnum x = true ->
     Filters.contains_character (Index.parseQuery q) = Some [x]) /\
    (toLowerCase q = pre ++ lit "containing " ++ x :: post ->
     indexOf (toLowerCase q) (lit "containing ") = Some (length pre) ->
     isAlnum x = true ->
     startsWith (x :: post) (lit "the letter ") = false ->
     Filters.contains_character (Index.parseQuery q) = Some [x]) /\
    (toLowerCase q = pre ++ lit "letter " ++ x :: post ->
     indexOf (toLowerCase q) (lit "letter ") = Some (length pre) ->
     isWordChar x = true ->
     Filters.contains_character (Part000.parseQuery q) =
       if includes (toLowerCase q) (lit "containing the letter") then Some [x] else None).
Proof.
  intros q pre post x. split; [|split].
  - intros Hlow Hfirst Hx.
    destruct (exec_containing_the_letter _ _ _ _ Hlow Hfirst Hx) as (m & Hm & Hg).
    rewrite index_parseQuery_contains, Hm. unfold Index.groupText. now rewrite Hg.
  - intros Hlow Hfirst Hx Hno.
    destruct (exec_containing_directly _ _ _ _ Hlow Hfirst Hx Hno) as (m & Hm & Hg).
    rewrite index_parseQuery_contains, Hm. unfold Index.groupText. now rewrite Hg.
  - intros Hlow Hfirst Hx.
    destruct (exec_letter _ _ _ _ Hlow Hfirst Hx) as (m & Hm & Hg).
    rewrite part000_parseQuery_contains, Hm. unfold Part000.groupText. now rewrite Hg.
Qed.

Lemma containing_rule_witness :
  Filters.contains_character
    (Index.parseQuery (lit "Strings containing the letter Z")) = Some (lit "z") /\
  Filters.contains_character
    (Index.parseQuery (lit "strings containing the first vowel")) = Some (lit "t") /\
  Filters.contains_character
    (Part000.parseQuery (lit "Strings containing the letter Z")) = Some (lit "z").
Proof.
  split; [|split].
  - destruct (containing_rule (lit "Strings containing the letter Z") (lit "strings ")
                (lit "") "z"%char) as (H & _).
    exact (H eq_refl eq_refl eq_refl).
  - destruct (containing_rule (lit "strings containing the first vowel") (lit "strings ")
                (lit "he first vowel") "t"%char) as (_ & H & _).
    exact (H eq_refl eq_refl eq_refl eq_refl).
  - destruct (containing_rule (lit "Strings containing the letter Z")
                (lit "strings containing the ") (lit "") "z"%char) as (_ & _ & H).
    exact (H eq_refl eq_refl eq_refl).
Defined.

(* ================================================================== *)
(** ** Many strings posted in a row *)

Lemma has_snoc (k k1 : jsstring) (e : entry) (m : Store) :
  JsMap.has k (m ++ [(k1, e)]) = JsMap.has k m || streqb k k1.
Proof.
  unfold JsMap.has. induction m as [|[k2 e2] m IH]; simpl.
  - now destruct (streqb k k1).
  - destruct (streqb k k2); [reflexivity | exact IH].
Qed.

Lemma insertAll_fresh (sha256 : jsstring -> jsstring)
      (post : Store -> body -> jsstring -> response * Store)
      (mk : jsstring -> jsstring -> entry) :
  (forall store s now, JsMap.has (sha256 s) store = false ->
     post store (Body (Some (VString s))) now = (Created (mk s now), store ++ [(sha256 s, mk s now)])) ->
  forall (posts : list (jsstring * jsstring)) (store : Store),
    NoDup (map (fun vn => sha256 (fst vn)) posts) ->
    (forall vn, In vn posts -> JsMap.has (sha256 (fst vn)) store = false) ->
    insertAll post posts store =
      store ++ map (fun vn => (sha256 (fst vn), mk (fst vn) (snd vn))) posts.
Proof.
  intros Hpost. unfold insertAll.
  induction posts as [|[v t] posts IH]; intros store Hnd Hfresh; simpl.
  - now rewrite app_nil_r.
  - inversion Hnd as [|? ? Hnin Hnd']; subst.
    rewrite Hpost by (apply (Hfresh (v, t)); now left). cbn [snd].
    rewrite IH; [now rewrite <- app_assoc | assumption |].
    intros [v' t'] Hin. rewrite has_snoc, (Hfresh (v', t')) by now right.
    simpl. apply streqb_neq. intros E. apply Hnin.
    apply in_map_iff. exists (v', t'). split; [now symmetry | assumption].
Qed.

(** X21.  Strings with pairwise distinct digests, posted one after the
    other to an empty store, are all stored, and [GET /strings] without
    parameters lists their records in the order they were posted, each with
    its own time stamp.  This holds of both servers. *)
Theorem posted_strings_are_listed_in_order :
  forall (sha256 : jsstring -> jsstring) (posts : list (jsstring * jsstring)),
    NoDup (map (fun vn => sha256 (fst vn)) posts) ->
    Index.getStrings (insertAll (Index.postStrings sha256) posts (JsMap.empty entry))
                     Query.empty =
      OkList (map (fun vn => indexEntry sha256 (fst vn) (snd vn)) posts)
             (length posts) Filters.empty /\
    Part000.getStrings (insertAll (Part000.postStrings sha256) posts (JsMap.empty entry))
                       Query.empty =
      OkList (map (fun vn => part000Entry sha256 (fst vn) (snd vn)) posts)
             (length posts) Filters.empty.
Proof.
  intros sha256 posts Hnd. split.
  - rewrite (insertAll_fresh sha256 (Index.postStrings sha256) (indexEntry sha256)
               (index_post_fresh sha256) posts (JsMap.empty entry) Hnd)
      by reflexivity.
    unfold Index.getStrings. simpl. unfold JsMap.values.
    rewrite map_map. simpl. now rewrite length_map.
  - rewrite (insertAll_fresh sha256 (Part000.postStrings sha256) (part000Entry sha256)
               (part000_post_fresh sha256) posts (JsMap.empty entry) Hnd)
      by reflexivity.
    unfold Part000.getStrings. simpl. unfold JsMap.values.
    rewrite map_map. simpl. now rewrite length_map.
Qed.

Lemma posted_strings_are_listed_in_order_witness :
  NoDup (map (fun vn => plainDigest (fst vn)) (scenarioPosts (lit "t1") (lit "t2") (lit "t3"))) /\
  Index.getStrings scenarioStore Query.empty =
    OkList (map (fun vn => indexEntry plainDigest (fst vn) (snd vn))
                (scenarioPosts (lit "t1") (lit "t2") (lit "t3")))
           3 Filters.empty.
Proof.
  assert (H : NoDup (map (fun vn => plainDigest (fst vn))
                         (scenarioPosts (lit "t1") (lit "t2") (lit "t3")))).
  { repeat constructor; simpl; intros H;
      repeat (destruct H as [H|H]; [discriminate H|]); exact H. }
  split; [exact H|].
  exact (proj1 (posted_strings_are_listed_in_order plainDigest
                  (scenarioPosts (lit "t1") (lit "t2") (lit "t3")) H)).
Defined.

(* ================================================================== *)
(** ** Integers as [parseInt] reads them *)








Lemma interpreted_filters_have_a_fixed_shape_witness :
  Filters.min_length (Index.parseQuery (lit "strings longer than 10 characters")) =
    Some (Num 11) /\
  exists z, Num 11 = Num z /\ (0 <= z)%Z.
Proof.
  split; [reflexivity|].
  destruct (interpreted_filters_have_a_fixed_shape (lit "strings longer than 10 characters"))
    as ((_ & _ & _ & Hmin & _) & _).
  exact (Hmin (Num 11) eq_refl).
Defined.
